(** * Sentinel Chat runtime: the outbox drain cycle

    A shallow embedding of [app/models/outbox.py],
    [app/services/drain_service.py], [app/routes/drain.py] and the drain
    settings of [app/config.py], followed by the properties of the drain
    cycle: selection order, delivery verdicts, bulk marking, counters,
    error surfacing and the frame of a cycle. *)

From Stdlib Require Import ZArith NArith List Bool String Lia.
From Stdlib Require Import Sorting.Sorted Sorting.Permutation.
From Stdlib Require Import Ascii DecimalString.
Import ListNotations.

Local Open Scope string_scope.
Local Open Scope list_scope.
Local Open Scope Z_scope.

(** ** Python values *)

(** A [DateTime] column value, as a count of clock ticks. *)
Definition DateTime := Z.

(** Exceptions that reach the drain code: the SQLAlchemy ones come from the
    session (select, update, commit), the httpx ones and any other from the
    body of [_deliver_to_primary]. All of them derive from [Exception]. *)
Inductive PyException : Type :=
| OperationalError (msg : string)
| ProgrammingError (msg : string)
| TimeoutException (msg : string)
| ConnectError (msg : string)
| OtherException (msg : string).

(** [str(e)] *)
Definition str (e : PyException) : string :=
  match e with
  | OperationalError m | ProgrammingError m | TimeoutException m
  | ConnectError m | OtherException m => m
  end.

(** A Python call either returns or raises. *)
Inductive py_result (A : Type) : Type :=
| Return (a : A)
| Raise (e : PyException).
Arguments Return {A} a.
Arguments Raise {A} e.

(** [len(l)] *)
Definition len {A} (l : list A) : Z := Z.of_nat (List.length l).

(** ** app/models/outbox.py *)

(** A row of [temp_outbox]. [id] is the primary key; [delivered_at] and
    [deleted_at] are the two nullable columns. *)
Record TempOutbox : Type := {
  id : Z;
  room_id : string;
  sender_handle : string;
  cipher_blob : string;
  filter_version : Z;
  queued_at : DateTime;
  delivered_at : option DateTime;
  deleted_at : option DateTime
}.

(** The table, as the list of its rows in the order the engine scans them.
    That order is the engine's: every statement below holds for each one. *)
Definition Table := list TempOutbox.

(** [TempOutbox.delivered_at.is_(None), TempOutbox.deleted_at.is_(None)] *)
Definition is_none {A} (o : option A) : bool :=
  match o with None => true | Some _ => false end.

Definition is_pending (r : TempOutbox) : bool :=
  is_none (delivered_at r) && is_none (deleted_at r).

(** [x in l], as [TempOutbox.id.in_(l)] tests it. *)
Fixpoint mem (x : Z) (l : list Z) : bool :=
  match l with
  | [] => false
  | y :: t => (x =? y) || mem x t
  end.

(** The primary-key constraint on [id], as a check on a table. *)
Fixpoint distinct (l : list Z) : bool :=
  match l with
  | [] => true
  | x :: t => negb (mem x t) && distinct t
  end.

Definition primary_key (t : Table) : bool := distinct (map id t).

(** ** app/config.py *)

Record Settings : Type := {
  PRIMARY_SERVER_URL : string;
  API_SECRET : string;
  DRAIN_BATCH_SIZE : Z;
  DRAIN_INTERVAL_SECONDS : Z
}.

Definition settings : Settings := {|
  PRIMARY_SERVER_URL := "http://localhost:3000";
  API_SECRET := "change-me-now";
  DRAIN_BATCH_SIZE := 100;
  DRAIN_INTERVAL_SECONDS := 5
|}.

(** ** The outside of the service *)

(** What one [client.post] comes back with: a response carrying a status
    code, or an exception (timeout, refused connection, a body that cannot
    be encoded, ...). *)
Inductive Attempt : Type :=
| Response (status_code : Z)
| Throws (e : PyException).

(** The request of one [client.post]. *)
Record Request : Type := {
  url : string;
  json_sender_handle : string;
  json_cipher_blob : string;
  json_filter_version : Z;
  header_x_api_secret : string;
  header_content_type : string
}.

(** The environment of one operation: whether the session raises at the
    SELECT, at the UPDATE, at the commit or at the COUNT, and what the
    primary server answers to the k-th post ever made. *)
Record Env : Type := {
  select_fault : option PyException;
  update_fault : option PyException;
  commit_fault : option PyException;
  count_fault : option PyException;
  primary : nat -> Attempt
}.

(** The state the operations act on: the table and the posts made so far. *)
Record World : Type := {
  db : Table;
  posted : list Request
}.

(** ** app/services/drain_service.py *)

(** ORDER BY, as a stable insertion sort on a comparison [leb]: rows that
    compare equal keep the order in which the engine scanned them. *)
Section OrderBy.
Context {A : Type} (leb : A -> A -> bool).

Fixpoint insert_by (r : A) (l : list A) : list A :=
  match l with
  | [] => [r]
  | x :: t => if leb r x then r :: x :: t else x :: insert_by r t
  end.

Definition sort_by (l : list A) : list A := fold_right insert_by [] l.
End OrderBy.

(** [.order_by(TempOutbox.queued_at.asc())]: on [queued_at] alone. MySQL
    is free to return rows with the same [queued_at] in any order; here that
    freedom is the scan order of the table. *)
Definition queued_at_asc (r x : TempOutbox) : bool :=
  queued_at r <=? queued_at x.

Definition order_by_queued_at (l : list TempOutbox) : list TempOutbox :=
  sort_by queued_at_asc l.

(** The rows the pending query yields when the engine answers it. *)
Definition pending_rows (t : Table) (batch_size : Z) : list TempOutbox :=
  firstn (Z.to_nat batch_size) (order_by_queued_at (filter is_pending t)).

(** [self.db.query(TempOutbox).filter(...).order_by(...).limit(batch_size).all()].
    The session may raise; MySQL rejects a negative LIMIT operand. *)
Definition query_pending (env : Env) (t : Table) (batch_size : Z)
  : py_result (list TempOutbox) :=
  match select_fault env with
  | Some e => Raise e
  | None =>
      if batch_size <? 0
      then Raise (ProgrammingError "You have an error in your SQL syntax")
      else Return (pending_rows t batch_size)
  end.

Definition build_request (cfg : Settings) (message : TempOutbox) : Request := {|
  url := (PRIMARY_SERVER_URL cfg ++ "/api/messaging/rooms/"
            ++ room_id message ++ "/messages")%string;
  json_sender_handle := sender_handle message;
  json_cipher_blob := cipher_blob message;
  json_filter_version := filter_version message;
  header_x_api_secret := API_SECRET cfg;
  header_content_type := "application/json"
|}.

(** [DrainService._deliver_to_primary], as the k-th post: [True] on status
    200, [False] on any other status, [False] on any exception. *)
Definition _deliver_to_primary (env : Env) (k : nat) (message : TempOutbox)
  : py_result bool :=
  match primary env k with
  | Response status_code => Return (status_code =? 200)
  | Throws e => Return false
  end.

(** The state of the delivery loop of [drain_batch]. *)
Record Loop : Type := {
  delivered_ids : list Z;
  failed_ids : list Z;
  sent : list Request
}.

(** One iteration of [for message in pending_messages], with its try/except. *)
Definition deliver_one (env : Env) (cfg : Settings) (st : Loop)
  (message : TempOutbox) : Loop :=
  let st' := {| delivered_ids := delivered_ids st;
                failed_ids := failed_ids st;
                sent := sent st ++ [build_request cfg message] |} in
  match _deliver_to_primary env (List.length (sent st)) message with
  | Return true =>
      {| delivered_ids := delivered_ids st' ++ [id message];
         failed_ids := failed_ids st';
         sent := sent st' |}
  | Return false =>
      {| delivered_ids := delivered_ids st';
         failed_ids := failed_ids st' ++ [id message];
         sent := sent st' |}
  | Raise e =>
      {| delivered_ids := delivered_ids st';
         failed_ids := failed_ids st' ++ [id message];
         sent := sent st' |}
  end.

Definition deliver_all (env : Env) (cfg : Settings) (st : Loop)
  (pending_messages : list TempOutbox) : Loop :=
  fold_left (deliver_one env cfg) pending_messages st.

(** [.filter(TempOutbox.id.in_(delivered_ids)).update({"delivered_at": now})]:
    every row whose id is listed gets the timestamp, whatever it held. *)
Definition set_delivered_at (now : DateTime) (r : TempOutbox) : TempOutbox := {|
  id := id r;
  room_id := room_id r;
  sender_handle := sender_handle r;
  cipher_blob := cipher_blob r;
  filter_version := filter_version r;
  queued_at := queued_at r;
  delivered_at := Some now;
  deleted_at := deleted_at r
|}.

Definition update_delivered_at (ids : list Z) (now : DateTime) (t : Table)
  : Table :=
  map (fun r => if mem (id r) ids then set_delivered_at now r else r) t.

(** The UPDATE and the commit. A fault at either leaves the table as it was:
    the transaction is rolled back when the session is closed. *)
Definition mark_delivered (env : Env) (ids : list Z) (now : DateTime)
  (t : Table) : py_result Table :=
  match update_fault env with
  | Some e => Raise e
  | None =>
      match commit_fault env with
      | Some e => Raise e
      | None => Return (update_delivered_at ids now t)
      end
  end.

(** The dictionary [drain_batch] returns. *)
Record DrainResult : Type := {
  processed : Z;
  delivered : Z;
  failed : Z
}.

Definition is_empty {A} (l : list A) : bool :=
  match l with [] => true | _ :: _ => false end.

(** [DrainService.drain_batch]; [now] is the value of [datetime.utcnow()]. *)
Definition drain_batch (env : Env) (cfg : Settings) (now : DateTime)
  (batch_size : Z) (w : World) : py_result DrainResult * World :=
  match query_pending env (db w) batch_size with
  | Raise e => (Raise e, w)
  | Return pending_messages =>
      if is_empty pending_messages then
        (Return {| processed := 0; delivered := 0; failed := 0 |}, w)
      else
        let st := deliver_all env cfg
                    {| delivered_ids := []; failed_ids := [];
                       sent := posted w |}
                    pending_messages in
        let result := {| processed := len pending_messages;
                         delivered := len (delivered_ids st);
                         failed := len (failed_ids st) |} in
        if is_empty (delivered_ids st) then
          (Return result, {| db := db w; posted := sent st |})
        else
          match mark_delivered env (delivered_ids st) now (db w) with
          | Raise e => (Raise e, {| db := db w; posted := sent st |})
          | Return t' => (Return result, {| db := t'; posted := sent st |})
          end
  end.

(** ** app/routes/drain.py *)

Inductive HttpResponse (A : Type) : Type :=
| Json (body : A)
| HTTPException (status_code : Z) (detail : string).
Arguments Json {A} body.
Arguments HTTPException {A} status_code detail.

Record RunBody : Type := {
  run_success : bool;
  run_processed : Z;
  run_delivered : Z;
  run_failed : Z
}.

Record StatusBody : Type := {
  pending_messages : Z;
  batch_size : Z;
  interval_seconds : Z
}.

(** [POST /drain/run] *)
Definition drain_messages (env : Env) (cfg : Settings) (now : DateTime)
  (w : World) : HttpResponse RunBody * World :=
  match drain_batch env cfg now (DRAIN_BATCH_SIZE cfg) w with
  | (Return result, w') =>
      (Json {| run_success := true;
               run_processed := processed result;
               run_delivered := delivered result;
               run_failed := failed result |}, w')
  | (Raise e, w') => (HTTPException 500 (str e), w')
  end.

(** The COUNT of [drain_status]. *)
Definition count_pending (t : Table) : Z := len (filter is_pending t).

(** [GET /drain/status] *)
Definition drain_status (env : Env) (cfg : Settings) (w : World)
  : HttpResponse StatusBody * World :=
  match count_fault env with
  | Some e => (HTTPException 500 (str e), w)
  | None =>
      (Json {| pending_messages := count_pending (db w);
               batch_size := DRAIN_BATCH_SIZE cfg;
               interval_seconds := DRAIN_INTERVAL_SECONDS cfg |}, w)
  end.

(** ** The store contract in the words of the specification *)

Module Spec.

(** "ordered by (queued_at ascending, id ascending)" *)
Definition queued_at_then_id_asc (r x : TempOutbox) : bool :=
  (queued_at r <? queued_at x)
  || ((queued_at r =? queued_at x) && (id r <=? id x)).

(** "selectPending(limit): returns up to limit records with
    delivered_at = null and deleted_at = null, ordered by
    (queued_at ascending, id ascending)" *)
Definition selectPending (t : Table) (limit : Z) : list TempOutbox :=
  firstn (Z.to_nat limit) (sort_by queued_at_then_id_asc (filter is_pending t)).

(** "markDelivered(ids, deliveredAt): setting delivered_at = deliveredAt
    for exactly the given ids that are still pending; already-delivered
    ids are left untouched" *)
Definition markDelivered (ids : list Z) (deliveredAt : DateTime) (t : Table)
  : Table :=
  map (fun r => if mem (id r) ids && is_pending r
                then set_delivered_at deliveredAt r else r) t.

End Spec.

(** ** Sequences of operations *)

Inductive Op : Type :=
| Run (env : Env) (cfg : Settings) (now : DateTime)
| Status (env : Env) (cfg : Settings).

Definition step (w : World) (o : Op) : World :=
  match o with
  | Run env cfg now => snd (drain_messages env cfg now w)
  | Status env cfg => snd (drain_status env cfg w)
  end.

Definition run_ops (ops : list Op) (w : World) : World := fold_left step ops w.

(** ** Readings of the delivery loop *)

(** The verdicts of the posts number [k], [k+1], ... of the environment. *)
Definition verdict (env : Env) (k : nat) : bool :=
  match primary env k with
  | Response status_code => status_code =? 200
  | Throws _ => false
  end.

(** The rows of a batch whose post got verdict [b], the first post of the
    batch being number [k]. *)
Fixpoint rows_with (env : Env) (b : bool) (k : nat) (batch : list TempOutbox)
  : list TempOutbox :=
  match batch with
  | [] => []
  | r :: rest =>
      if Bool.eqb (verdict env k) b
      then r :: rows_with env b (S k) rest
      else rows_with env b (S k) rest
  end.

(** An environment without storage faults. *)
Definition storage_up (env : Env) : bool :=
  is_none (select_fault env) && is_none (update_fault env)
  && is_none (commit_fault env).

(** ** The frame of an update *)

(** Two tables with the same rows up to [delivered_at], position by
    position. *)
Definition same_but_delivered_at (t t' : Table) : Prop :=
  map id t' = map id t
  /\ map room_id t' = map room_id t
  /\ map sender_handle t' = map sender_handle t
  /\ map cipher_blob t' = map cipher_blob t
  /\ map filter_version t' = map filter_version t
  /\ map queued_at t' = map queued_at t
  /\ map deleted_at t' = map deleted_at t.

(** ** The ways through one cycle *)

(** The five ways through [drain_batch], from a world [w]: the SELECT
    raises; nothing is pending; no delivery succeeded; the UPDATE or the
    commit raises; the delivered rows are marked. *)
Inductive Cycle (env : Env) (cfg : Settings) (now : DateTime) (n : Z)
  (w : World) : py_result DrainResult * World -> Prop :=
| SelectRaised (e : PyException) :
    query_pending env (db w) n = Raise e ->
    Cycle env cfg now n w (Raise e, w)
| NothingPending :
    query_pending env (db w) n = Return [] ->
    Cycle env cfg now n w
      (Return {| processed := 0; delivered := 0; failed := 0 |}, w)
| NothingDelivered (batch : list TempOutbox) :
    query_pending env (db w) n = Return batch ->
    batch <> [] ->
    rows_with env true (List.length (posted w)) batch = [] ->
    Cycle env cfg now n w
      (Return {| processed := len batch;
                 delivered := 0;
                 failed := len batch |},
       {| db := db w; posted := posted w ++ map (build_request cfg) batch |})
| MarkRaised (batch : list TempOutbox) (e : PyException) :
    query_pending env (db w) n = Return batch ->
    rows_with env true (List.length (posted w)) batch <> [] ->
    mark_delivered env
      (map id (rows_with env true (List.length (posted w)) batch))
      now (db w) = Raise e ->
    Cycle env cfg now n w
      (Raise e,
       {| db := db w; posted := posted w ++ map (build_request cfg) batch |})
| Marked (batch : list TempOutbox) :
    query_pending env (db w) n = Return batch ->
    rows_with env true (List.length (posted w)) batch <> [] ->
    update_fault env = None -> commit_fault env = None ->
    Cycle env cfg now n w
      (Return {| processed := len batch;
                 delivered :=
                   len (rows_with env true (List.length (posted w)) batch);
                 failed :=
                   len (rows_with env false (List.length (posted w)) batch) |},
       {| db := update_delivered_at
                  (map id (rows_with env true (List.length (posted w)) batch))
                  now (db w);
          posted := posted w ++ map (build_request cfg) batch |}).

(** An environment in which the store is up and every post is answered
    with status 200. *)
Definition all_delivered (env : Env) : Prop :=
  storage_up env = true /\ forall k, primary env k = Response 200.

(** ** Sample rows, tables and environments *)

Definition row (i : Z) (q : DateTime) (d x : option DateTime) : TempOutbox := {|
  id := i;
  room_id := "lobby";
  sender_handle := "alice";
  cipher_blob := "Zm9v";
  filter_version := 1;
  queued_at := q;
  delivered_at := d;
  deleted_at := x
|}.

(** A reachable store and the given answers of the primary server. *)
Definition up (answers : nat -> Attempt) : Env := {|
  select_fault := None;
  update_fault := None;
  commit_fault := None;
  count_fault := None;
  primary := answers
|}.

Definition always_200 : nat -> Attempt := fun _ => Response 200.

(** Two pending rows queued at the same time, scanned with id 2 first. *)
Definition tie_table : Table := [row 2 5 None None; row 1 5 None None].

(** 150 pending rows, queued two per tick, after a delivered one. *)
Definition backlog_150 : Table :=
  row 0 0 (Some 1) None
  :: map (fun i => row (Z.of_nat i) (Z.of_nat i / 2) None None) (seq 1 150).

(** A store whose commit fails. *)
Definition commit_down : Env := {|
  select_fault := None;
  update_fault := None;
  commit_fault := Some (OperationalError "MySQL server has gone away");
  count_fault := None;
  primary := always_200
|}.

(** Three pending rows queued at distinct times, a delivered row and a
    tombstoned one. *)
Definition mixed_table : Table :=
  [row 1 30 None None; row 2 10 None None; row 3 20 (Some 25) None;
   row 4 5 None (Some 6); row 5 20 None None].

(** ** The writes and the answers of the store *)

(** What any number of cycles write to the table, whether they run one after
    another or overlap: the UPDATE of each, with its ids and its timestamp,
    in the order the store runs them. *)
Definition run_marks (marks : list (list Z * DateTime)) (t : Table) : Table :=
  fold_left (fun t' m => update_delivered_at (fst m) (snd m) t') marks t.

(** The answers the engine may give to the pending query: the first rows of
    any arrangement of the pending rows in ascending [queued_at], rows
    queued at the same time in any order. *)
Definition answers_query (t : Table) (n : Z) (rows : list TempOutbox) : Prop :=
  exists order,
    Permutation order (filter is_pending t)
    /\ StronglySorted (fun r x => queued_at r <= queued_at x) order
    /\ rows = firstn (Z.to_nat n) order.

(** ** Readings of a run of cycles *)

(** The batch of a cycle: the rows its query returned, none when it raised. *)
Definition batch_of (env : Env) (t : Table) (n : Z) : list TempOutbox :=
  match query_pending env t n with
  | Return batch => batch
  | Raise _ => []
  end.

(** A trigger of the endpoint with batch size [n], the store up and every
    post answered with status 200. *)
Definition delivering_run (n : Z) (o : Op) : Prop :=
  match o with
  | Run env cfg _ => all_delivered env /\ DRAIN_BATCH_SIZE cfg = n
  | Status _ _ => False
  end.

(** ** websocket-server-python.py: the stats of the two servers *)

(** [str(n)] for an [int]. *)
Definition str_int (n : Z) : string := NilZero.string_of_int (Z.to_int n).

Module WsServer.

Definition PYTHON_WS_PORT : Z := 4291.
Definition NODE_WS_PORT : Z := 8420.

(** The [subprocess.Popen] object of the Node.js server. *)
Record Popen : Type := { pid : Z }.

(** The module's globals; the two dictionaries by their keys. *)
Record Globals : Type := {
  node_process : option Popen;
  connected_clients : list string;
  room_subscriptions : list string;
  node_restart_count : Z
}.

Record PythonServer : Type := {
  python_running : bool;
  python_port : Z;
  python_pid : Z;
  uptime : string;
  n_connected_clients : Z;
  active_rooms : Z;
  node_restarts : Z
}.

Record NodeServer : Type := {
  node_running : bool;
  node_port : Z;
  node_pid : option Z;
  exit_code : option Z;
  restart_count : Z
}.

Record Stats : Type := {
  python_server : PythonServer;
  node_server : NodeServer
}.

(** [get_server_stats]. [uptime_seconds] is
    [int(time.time() - server_start_time)], [getpid] is [os.getpid()], and
    [poll1], [poll2] are what the two calls of [node_process.poll()] return:
    [None] while the process runs, its exit code afterwards. *)
Definition get_server_stats (g : Globals) (uptime_seconds getpid : Z)
  (poll1 poll2 : option Z) : Stats :=
  let hours := uptime_seconds / 3600 in
  let minutes := (uptime_seconds mod 3600) / 60 in
  let seconds := uptime_seconds mod 60 in
  let uptime_str :=
    (str_int hours ++ "h " ++ str_int minutes ++ "m "
       ++ str_int seconds ++ "s")%string in
  let running :=
    match node_process g with
    | Some _ => is_none poll1
    | None => false
    end in
  {| python_server :=
       {| python_running := true;
          python_port := PYTHON_WS_PORT;
          python_pid := getpid;
          uptime := uptime_str;
          n_connected_clients := len (connected_clients g);
          active_rooms := len (room_subscriptions g);
          node_restarts := node_restart_count g |};
     node_server :=
       {| node_running := running;
          node_port := NODE_WS_PORT;
          node_pid := option_map pid (node_process g);
          exit_code :=
            match node_process g with
            | Some _ => poll2
            | None => None
            end;
          restart_count := node_restart_count g |} |}.

End WsServer.

(** ** chatbot-bot.py: the reply rules of the bot *)

Module ChatBot.

(** [s.startswith(p)] *)
Fixpoint startswith (p s : string) : bool :=
  match p, s with
  | EmptyString, _ => true
  | String _ _, EmptyString => false
  | String a p', String b s' => Ascii.eqb a b && startswith p' s'
  end.

(** [sub in s] *)
Fixpoint contains (sub s : string) : bool :=
  startswith sub s
  || match s with
     | EmptyString => false
     | String _ s' => contains sub s'
     end.

(** [any(word in s for word in words)] *)
Definition any_in (words : list string) (s : string) : bool :=
  existsb (fun word => contains word s) words.

(** [BOT_RESPONSES] *)
Definition greetings : list string :=
  ["Hello! How can I help you today?";
   "Hi there! What's on your mind?";
   "Hey! Nice to chat with you!";
   "Hello! I'm here to chat. What would you like to talk about?"].

Definition questions : list string :=
  ["That's an interesting question! Let me think...";
   "Hmm, I'm not entirely sure, but I'd say...";
   "That's a good question! From what I understand..."].

Definition goodbye : list string :=
  ["Goodbye! Have a great day!";
   "See you later!";
   "Bye! It was nice chatting!";
   "Farewell! Take care!"].

Definition thanks : list string :=
  ["You're welcome!";
   "Happy to help!";
   "No problem at all!";
   "Anytime!"].

Definition default : list string :=
  ["That's interesting! Tell me more.";
   "I see. What else would you like to discuss?";
   "Hmm, I'm not sure how to respond to that, but I'm listening!";
   "That's a new one! Can you elaborate?"].

(** The entries of [CONFIG] that the modelled methods read. *)
Record Config : Type := {
  bot_handle : string;
  ws_host : string;
  ws_port : Z;
  api_base_url : string;
  api_secret : string;
  default_room : string;
  ai_provider : string;
  openai_api_key : string;
  ollama_url : string;
  ollama_model : string
}.

(** What [requests.post] to Ollama comes back with: a status code and the
    ['response'] field of the JSON body when it has one; or an exception,
    also when the body is not JSON or the field is not a string. *)
Inductive Ollama : Type :=
| OllamaAnswer (status_code : Z) (response : option string)
| OllamaRaises.

(** The outside of one [generate_response]: whether [random.random() > 0.1],
    the index [random.choice] draws, the content OpenAI returns ([None] when
    anything in that call raises), and what Ollama does. *)
Record Chance : Type := {
  random_above_0_1 : bool;
  pick : nat;
  openai : option string;
  ollama : Ollama
}.

(** [random.choice(seq)] on a non-empty list. *)
Definition choice (ch : Chance) (seq : list string) : string :=
  nth (pick ch mod List.length seq) seq "".

(** One entry of a room's history; [timestamp] is the reading of
    [time.time()], stored and never computed with. *)
Record Entry : Type := {
  text : string;
  timestamp : Z
}.

(** [self.conversation_history]: room_id -> list of recent messages. *)
Definition History := string -> option (list Entry).

Definition no_history : History := fun _ => None.

(** [l[-k:]] *)
Definition last_n {A} (k : nat) (l : list A) : list A :=
  skipn (List.length l - k) l.

(** The history lines of [generate_response]: create the room's list when
    missing, append the message, keep the last 10 when there are more. *)
Definition add_to_history (h : History) (message_text room_id : string)
  (now : Z) : History :=
  let h1 : History :=
    match h room_id with
    | None => fun r => if String.eqb r room_id then Some [] else h r
    | Some _ => h
    end in
  let appended :=
    match h1 room_id with
    | Some l => l ++ [{| text := message_text; timestamp := now |}]
    | None => [{| text := message_text; timestamp := now |}]
    end in
  let kept :=
    if (10 <? List.length appended)%nat then last_n 10 appended
    else appended in
  fun r => if String.eqb r room_id then Some kept else h1 r.

(** Text and bytes are strings of bytes, text by its UTF-8 encoding. *)

(** The value of a byte. *)
Definition code (c : ascii) : N := N_of_ascii c.

(** [urllib.parse]: the bytes [quote] never escapes, letters, digits and
    [_.-~]. *)
Definition always_safe (c : ascii) : bool :=
  let n := code c in
  (((65 <=? n) && (n <=? 90)) || ((97 <=? n) && (n <=? 122))
   || ((48 <=? n) && (n <=? 57))
   || (n =? 95) || (n =? 46) || (n =? 45) || (n =? 126))%N.

Definition char_at (table : string) (i : N) : ascii :=
  match String.get (N.to_nat i) table with
  | Some c => c
  | None => "000"%char
  end.

Definition hex_upper (i : N) : ascii := char_at "0123456789ABCDEF" i.

(** ['%{:02X}'.format(b)] for the other bytes. *)
Definition quote_byte (c : ascii) : string :=
  if always_safe c then String c ""
  else String "%" (String (hex_upper (code c / 16))
                     (String (hex_upper (code c mod 16)) "")).

(** [quote(text, safe='')] *)
Fixpoint quote (bs : string) : string :=
  match bs with
  | "" => ""
  | String c rest => quote_byte c ++ quote rest
  end.

(** The hexadecimal digits [unquote] accepts, in either case. *)
Definition hex_value (c : ascii) : option N :=
  let n := code c in
  (if (48 <=? n) && (n <=? 57) then Some (n - 48)
   else if (65 <=? n) && (n <=? 70) then Some (n - 55)
   else if (97 <=? n) && (n <=? 102) then Some (n - 87)
   else None)%N.

(** [urllib.parse.unquote_to_bytes]: every [%] followed by two hexadecimal
    digits is the byte they name; any other [%] stays. *)
Fixpoint unquote_to_bytes (s : string) : string :=
  match s with
  | "" => ""
  | String c rest =>
      if Ascii.eqb c "%" then
        match rest with
        | String a (String b rest') =>
            match hex_value a, hex_value b with
            | Some x, Some y =>
                String (ascii_of_N (16 * x + y)) (unquote_to_bytes rest')
            | _, _ => String c (unquote_to_bytes rest)
            end
        | _ => String c (unquote_to_bytes rest)
        end
      else String c (unquote_to_bytes rest)
  end.

(** [base64]: the standard alphabet. *)
Definition b64_alphabet : string :=
  "ABCDEFGHIJKLMNOPQRSTUVWXYZabcdefghijklmnopqrstuvwxyz0123456789+/".

Definition b64_char (i : N) : ascii := char_at b64_alphabet i.

(** [base64.b64encode]: three bytes to four characters, the last group
    padded with [=]. *)
Fixpoint b64encode (bs : string) : string :=
  match bs with
  | "" => ""
  | String a "" =>
      let n := (code a * 16)%N in
      String (b64_char (n / 64)) (String (b64_char (n mod 64)) "==")
  | String a (String b "") =>
      let n := ((code a * 256 + code b) * 4)%N in
      String (b64_char (n / 4096))
        (String (b64_char (n / 64 mod 64))
           (String (b64_char (n mod 64)) "="))
  | String a (String b (String c rest)) =>
      let n := (code a * 65536 + code b * 256 + code c)%N in
      String (b64_char (n / 262144))
        (String (b64_char (n / 4096 mod 64))
           (String (b64_char (n / 64 mod 64))
              (String (b64_char (n mod 64)) (b64encode rest))))
  end.

Definition b64_value (c : ascii) : option N :=
  let n := code c in
  (if (65 <=? n) && (n <=? 90) then Some (n - 65)
   else if (97 <=? n) && (n <=? 122) then Some (n - 71)
   else if (48 <=? n) && (n <=? 57) then Some (n + 4)
   else if n =? 43 then Some 62
   else if n =? 47 then Some 63
   else None)%N.

(** [base64.b64decode] on text made of whole groups of four characters of
    the alphabet, the last group padded or not; [None] on any other text. *)
Fixpoint b64decode_quads (s : string) : option string :=
  match s with
  | "" => Some ""
  | String c1 (String c2 (String c3 (String c4 rest))) =>
      match b64_value c1, b64_value c2 with
      | Some v1, Some v2 =>
          if Ascii.eqb c3 "=" && Ascii.eqb c4 "=" then
            match rest with
            | "" => Some (String (ascii_of_N ((v1 * 64 + v2) / 16)) "")
            | _ => None
            end
          else
            match b64_value c3 with
            | Some v3 =>
                if Ascii.eqb c4 "=" then
                  match rest with
                  | "" =>
                      let n := (((v1 * 64 + v2) * 64 + v3) / 4)%N in
                      Some (String (ascii_of_N (n / 256))
                              (String (ascii_of_N (n mod 256)) ""))
                  | _ => None
                  end
                else
                  match b64_value c4, b64decode_quads rest with
                  | Some v4, Some bytes =>
                      let n := (((v1 * 64 + v2) * 64 + v3) * 64 + v4)%N in
                      Some (String (ascii_of_N (n / 65536))
                              (String (ascii_of_N (n / 256 mod 256))
                                 (String (ascii_of_N (n mod 256)) bytes)))
                  | _, _ => None
                  end
            | None => None
            end
      | _, _ => None
      end
  | _ => None
  end.

(** A byte below 128, and a text of such bytes only. *)
Definition is_ascii (c : ascii) : bool := (code c <? 128)%N.

Fixpoint all_ascii (s : string) : bool :=
  match s with
  | "" => true
  | String c rest => is_ascii c && all_ascii rest
  end.

Definition between (lo hi : N) (c : ascii) : bool :=
  ((lo <=? code c) && (code c <=? hi))%N.

(** Well-formed UTF-8, as the strict [utf-8] codec accepts it: no overlong
    form, no surrogate, nothing above U+10FFFF. *)
Fixpoint valid_utf8 (bs : string) : bool :=
  match bs with
  | "" => true
  | String a rest =>
      if is_ascii a then valid_utf8 rest
      else if between 194 223 a then
        match rest with
        | String b rest1 => between 128 191 b && valid_utf8 rest1
        | _ => false
        end
      else if between 224 239 a then
        match rest with
        | String b (String c rest2) =>
            (if (code a =? 224)%N then between 160 191 b
             else if (code a =? 237)%N then between 128 159 b
             else between 128 191 b)
            && between 128 191 c && valid_utf8 rest2
        | _ => false
        end
      else if between 240 244 a then
        match rest with
        | String b (String c (String d rest3)) =>
            (if (code a =? 240)%N then between 144 191 b
             else if (code a =? 244)%N then between 128 143 b
             else between 128 191 b)
            && between 128 191 c && between 128 191 d && valid_utf8 rest3
        | _ => false
        end
      else false
  end.

(** [quote(text)] with its default [safe='/']. *)
Definition quote_slash_byte (c : ascii) : string :=
  if always_safe c || Ascii.eqb c "/" then String c ""
  else String "%" (String (hex_upper (code c / 16))
                     (String (hex_upper (code c mod 16)) "")).

Fixpoint quote_slash (bs : string) : string :=
  match bs with
  | "" => ""
  | String c rest => quote_slash_byte c ++ quote_slash rest
  end.

(** The URL [connect_websocket] connects to; [current_room] is
    [self.current_room], and there is no URL when it is [None], for [quote]
    raises. *)
Definition connect_url (cfg : Config) (current_room : option string)
  : option string :=
  match current_room with
  | None => None
  | Some room_id =>
      Some ("ws://" ++ ws_host cfg ++ ":" ++ str_int (ws_port cfg)
              ++ "?user_handle=" ++ quote_slash (bot_handle cfg)
              ++ "&api_secret=" ++ quote_slash (api_secret cfg)
              ++ "&room_id=" ++ quote_slash room_id)%string
  end.

(** The encoding lines of [send_message]:
    [base64.b64encode(quote(message_text, safe='').encode('utf-8')).decode('utf-8')];
    the quoted text is ASCII, and so is its base64 form. *)
Definition encode_message (message_text : string) : string :=
  b64encode (quote message_text).

(** What [requests.post] to the PHP API comes back with: a status code and,
    when the body is a JSON object, whether its ['success'] entry is truthy;
    or an exception. *)
Inductive Api : Type :=
| ApiAnswer (status_code : Z) (success : option bool)
| ApiRaises.

(** The [room_id] of a message from the WebSocket, as [json.loads] and
    [dict.get] give it to [handle_message], which passes it on untested:
    [None] when the key is missing or null, a string, an integer, or an
    array or an object, which no dict takes as a key. (JSON [true], [false]
    and numbers with a fraction or an exponent, which a dict identifies
    with the integers they equal, are not among these values.) *)
Inductive RoomId : Type :=
| NoRoom
| RoomName (name : string)
| RoomNumber (number : Z)
| RoomUnhashable.

(** [==] on the keys of [self.conversation_history]. *)
Definition same_room (a b : RoomId) : bool :=
  match a, b with
  | NoRoom, NoRoom => true
  | RoomName x, RoomName y => String.eqb x y
  | RoomNumber x, RoomNumber y => x =? y
  | _, _ => false
  end.

(** [self.conversation_history] under the keys [handle_message] may pass. *)
Definition Rooms := RoomId -> option (list Entry).

Definition no_rooms : Rooms := fun _ => None.

(** The history lines of [generate_response] for any key: create the list
    when the key is missing, append the message, keep the last 10. *)
Definition add_to_rooms (h : Rooms) (message_text : string)
  (room_id : RoomId) (now : Z) : Rooms :=
  let h1 : Rooms :=
    match h room_id with
    | None => fun r => if same_room r room_id then Some [] else h r
    | Some _ => h
    end in
  let appended :=
    match h1 room_id with
    | Some l => l ++ [{| text := message_text; timestamp := now |}]%list
    | None => [{| text := message_text; timestamp := now |}]
    end in
  let kept :=
    if (10 <? List.length appended)%nat then last_n 10 appended
    else appended in
  fun r => if same_room r room_id then Some kept else h1 r.

(** What the provider methods, whose models take the name of a room, are
    given for a key: they receive [room_id] and no reply depends on it. *)
Definition room_label (room_id : RoomId) : string :=
  match room_id with
  | RoomName name => name
  | _ => ""
  end.

(** The request of [send_message]. *)
Record Post : Type := {
  post_url : string;
  post_room_id : RoomId;
  post_sender_handle : string;
  post_cipher_blob : string;
  post_filter_version : Z;
  post_x_api_secret : string
}.

(** [ChatBot.send_message]: the result and the request made. *)
Definition send_message (cfg : Config) (api : Api)
  (room_id : RoomId) (message_text : string) : bool * Post :=
  let post := {|
    post_url := (api_base_url cfg ++ "/messages.php")%string;
    post_room_id := room_id;
    post_sender_handle := bot_handle cfg;
    post_cipher_blob := encode_message message_text;
    post_filter_version := 1;
    post_x_api_secret := api_secret cfg |} in
  match api with
  | ApiAnswer status_code success =>
      if status_code =? 200 then
        match success with
        | Some true => (true, post)
        | _ => (false, post)
        end
      else (false, post)
  | ApiRaises => (false, post)
  end.

(** A message from the WebSocket, once parsed. A [new_message] whose
    [message] is an object, the empty one when the key is missing: its
    [room_id] whatever it is, its sender and its blob when they are strings
    ([None] when missing, null or something else). A [room_joined] with its [room_id]. A [pong]. An [error]. And
    [Unknown]: a message of no type or of another type, or a [new_message]
    whose [message] is not an object, on which [.get] raises. *)
Inductive Incoming : Type :=
| NewMessage (room_id : RoomId) (sender_handle cipher_blob : option string)
| RoomJoined (room_id : RoomId)
| Pong
| ErrorFrame (message : option string)
| Unknown.

(** The attributes of the bot that [handle_message] reads and writes. *)
Record Bot : Type := {
  conversation_history : Rooms;
  current_room : RoomId
}.

Section Rules.
(** [str.lower] and [str.strip], the two built-ins the rules call. *)
Context (lower strip : string -> string).
(** What [base64.b64decode] does with text that is not whole groups of the
    alphabet, and what [decode('utf-8', errors='replace')] puts for bytes
    that are not UTF-8. *)
Context (lenient_b64 : string -> py_result string).
Context (replace_invalid : string -> string).

(** [ChatBot._generate_simple_response] *)
Definition _generate_simple_response (cfg : Config) (ch : Chance)
  (message_text room_id : string) : string :=
  let message_lower := strip (lower message_text) in
  if any_in ["hello"; "hi"; "hey"; "greetings"] message_lower then
    choice ch greetings
  else if contains "?" message_text then
    let base := choice ch questions in
    if contains "how are you" message_lower then
      "I'm doing great, thanks for asking! How are you?"
    else if contains "what" message_lower
            && contains "your name" message_lower then
      ("I'm " ++ bot_handle cfg ++ "! Nice to meet you!")%string
    else if contains "who are you" message_lower then
      ("I'm " ++ bot_handle cfg
         ++ ", a friendly AI chatbot here to chat with you!")%string
    else base
  else if any_in ["bye"; "goodbye"; "see you"; "farewell"] message_lower then
    choice ch goodbye
  else if any_in ["thank"; "thanks"; "thx"] message_lower then
    choice ch thanks
  else choice ch default.

(** [ChatBot._generate_openai_response]: the stripped content, or the
    rule-based reply when anything raised. *)
Definition _generate_openai_response (cfg : Config) (ch : Chance)
  (message_text room_id : string) : option string :=
  match openai ch with
  | Some content => Some (strip content)
  | None => Some (_generate_simple_response cfg ch message_text room_id)
  end.

(** [ChatBot._generate_ollama_response] *)
Definition _generate_ollama_response (cfg : Config) (ch : Chance)
  (message_text room_id : string) : option string :=
  match ollama ch with
  | OllamaAnswer status_code response =>
      if status_code =? 200 then
        Some (strip (match response with Some r => r | None => "" end))
      else Some (_generate_simple_response cfg ch message_text room_id)
  | OllamaRaises =>
      Some (_generate_simple_response cfg ch message_text room_id)
  end.

(** The test [bot_mentioned] of [generate_response]. *)
Definition bot_mentioned (cfg : Config) (message_lower : string) : bool :=
  contains (lower (bot_handle cfg)) message_lower
  || contains ("@" ++ lower (bot_handle cfg))%string message_lower
  || startswith "bot" message_lower
  || startswith "hey bot" message_lower
  || startswith "hi bot" message_lower.

(** [ChatBot.generate_response]: the reply, [None] for no reply, and the
    history afterwards; [now] is the reading of [time.time()]. *)
Definition generate_response (cfg : Config) (ch : Chance) (now : Z)
  (h : History) (message_text room_id : string) : option string * History :=
  let message_lower := strip (lower message_text) in
  let h' := add_to_history h message_text room_id now in
  if negb (bot_mentioned cfg message_lower) && random_above_0_1 ch then
    (None, h')
  else if String.eqb (ai_provider cfg) "openai"
          && negb (String.eqb (openai_api_key cfg) "") then
    (_generate_openai_response cfg ch message_text room_id, h')
  else if String.eqb (ai_provider cfg) "ollama" then
    (_generate_ollama_response cfg ch message_text room_id, h')
  else
    (Some (_generate_simple_response cfg ch message_text room_id), h').

(** [ChatBot.generate_response] as [handle_message] calls it, with the key
    it read from the message: the test [room_id not in
    self.conversation_history] raises [TypeError] for a key that cannot be
    hashed, before anything is written; otherwise the lines are those
    above. *)
Definition generate_response_in (cfg : Config) (ch : Chance) (now : Z)
  (h : Rooms) (message_text : string) (room_id : RoomId)
  : py_result (option string) * Rooms :=
  let message_lower := strip (lower message_text) in
  match room_id with
  | RoomUnhashable => (Raise (OtherException "unhashable type"), h)
  | _ =>
      let h' := add_to_rooms h message_text room_id now in
      let room := room_label room_id in
      if negb (bot_mentioned cfg message_lower) && random_above_0_1 ch then
        (Return None, h')
      else if String.eqb (ai_provider cfg) "openai"
              && negb (String.eqb (openai_api_key cfg) "") then
        (Return (_generate_openai_response cfg ch message_text room), h')
      else if String.eqb (ai_provider cfg) "ollama" then
        (Return (_generate_ollama_response cfg ch message_text room), h')
      else
        (Return (Some (_generate_simple_response cfg ch message_text room)),
         h')
  end.

(** One message that reaches [generate_response]. *)
Record Call : Type := {
  call_chance : Chance;
  call_now : Z;
  call_text : string;
  call_room : string
}.

(** The history after a run of messages. *)
Definition history_after (cfg : Config) (calls : list Call) (h : History)
  : History :=
  fold_left
    (fun h c =>
       snd (generate_response cfg (call_chance c) (call_now c) h
              (call_text c) (call_room c)))
    calls h.

(** [base64.b64decode(cipher_blob)] on text. *)
Definition b64decode (data : string) : py_result string :=
  if all_ascii data then
    match b64decode_quads data with
    | Some bytes => Return bytes
    | None => lenient_b64 data
    end
  else Raise (OtherException
                "string argument should contain only ASCII characters").

(** [bytes.decode('utf-8')], strict or with [errors='replace']. *)
Definition decode_utf8 (bs : string) : py_result string :=
  if valid_utf8 bs then Return bs
  else Raise (OtherException "'utf-8' codec can't decode bytes").

Definition decode_utf8_replace (bs : string) : string :=
  if valid_utf8 bs then bs else replace_invalid bs.

(** [urllib.parse.unquote]: text without [%] as it is; otherwise every run
    of ASCII characters unquoted to bytes and decoded, the other characters
    kept. [run] is the ASCII run read so far. *)
Fixpoint unquote_runs (s run : string) : string :=
  match s with
  | "" => decode_utf8_replace (unquote_to_bytes run)
  | String c rest =>
      if is_ascii c then unquote_runs rest (run ++ String c "")
      else (decode_utf8_replace (unquote_to_bytes run)
              ++ String c (unquote_runs rest ""))%string
  end.

Definition unquote (s : string) : string :=
  if contains "%" s then unquote_runs s "" else s.

(** The decoding lines of [handle_message]:
    [unquote(base64.b64decode(cipher_blob).decode('utf-8'))]. *)
Definition decode_message (cipher_blob : option string) : py_result string :=
  match cipher_blob with
  | None => Raise (OtherException "argument should be a bytes-like object")
  | Some blob =>
      match b64decode blob with
      | Raise e => Raise e
      | Return bytes =>
          match decode_utf8 bytes with
          | Raise e => Raise e
          | Return decoded_b64 => Return (unquote decoded_b64)
          end
      end
  end.

(** [ChatBot.handle_message]: the bot afterwards and the requests made.
    Whatever raises past the decoding is caught by the outer [except]. *)
Definition handle_message (cfg : Config) (ch : Chance) (now : Z) (api : Api)
  (bot : Bot) (message_data : Incoming) : Bot * list Post :=
  match message_data with
  | NewMessage room_id sender_handle cipher_blob =>
      if match sender_handle with
         | Some sender => String.eqb sender (bot_handle cfg)
         | None => false
         end
      then (bot, [])
      else
        match decode_message cipher_blob with
        | Raise e => (bot, [])
        | Return message_text =>
            let (response_text, h') :=
              generate_response_in cfg ch now (conversation_history bot)
                message_text room_id in
            let bot' := {| conversation_history := h';
                           current_room := current_room bot |} in
            match response_text with
            | Raise e => (bot', [])
            | Return (Some reply) =>
                if String.eqb reply "" then (bot', [])
                else (bot', [snd (send_message cfg api room_id reply)])
            | Return None => (bot', [])
            end
        end
  | RoomJoined room_id =>
      ({| conversation_history := conversation_history bot;
          current_room := room_id |}, [])
  | Pong => (bot, [])
  | ErrorFrame _ => (bot, [])
  | Unknown => (bot, [])
  end.

End Rules.

(** The entries a run of messages holds for a room, in arrival order. *)
Definition entries_of (room_id : string) (calls : list Call) : list Entry :=
  map (fun c => {| text := call_text c; timestamp := call_now c |})
    (filter (fun c => String.eqb (call_room c) room_id) calls).

End ChatBot.

(** The characters of a value quoted with [safe='/']: the bytes never
    escaped, the slash and the percent sign of the escapes. *)
Definition url_value_char (c : ascii) : bool :=
  ChatBot.always_safe c || Ascii.eqb c "/" || Ascii.eqb c "%".

(** Sample of the bot: a configuration, a chance, and twelve messages to
    one room followed by one to another. *)
Definition rule_bot : ChatBot.Config := {|
  ChatBot.bot_handle := "ChatBot";
  ChatBot.ws_host := "localhost";
  ChatBot.ws_port := 8420;
  ChatBot.api_base_url := "http://localhost/iChat/api";
  ChatBot.api_secret := "change-me-now";
  ChatBot.default_room := "lobby";
  ChatBot.ai_provider := "simple";
  ChatBot.openai_api_key := "";
  ChatBot.ollama_url := "http://localhost:11434";
  ChatBot.ollama_model := "llama2"
|}.

Definition quiet : ChatBot.Chance := {|
  ChatBot.random_above_0_1 := true;
  ChatBot.pick := 5;
  ChatBot.openai := None;
  ChatBot.ollama := ChatBot.OllamaRaises
|}.

Definition said (n : nat) (room_id : string) : ChatBot.Call := {|
  ChatBot.call_chance := quiet;
  ChatBot.call_now := Z.of_nat n;
  ChatBot.call_text := "ping";
  ChatBot.call_room := room_id
|}.

Definition thirteen_calls : list ChatBot.Call :=
  map (fun n => said n "lobby") (seq 1 12) ++ [said 13 "dev"].

(** A text with a two-byte character, a space, a percent sign and an
    ampersand: [h\u00e9 & 100%]. *)
Definition accented : string :=
  String "h" (String (ascii_of_N 195) (String (ascii_of_N 169) " & 100%")).

Definition api_ok : ChatBot.Api := ChatBot.ApiAnswer 200 (Some true).

(** A [b64decode] that raises on whatever is not whole groups, and a
    replacement that puts a question mark. *)
Definition b64_strict : string -> py_result string :=
  fun _ => Raise (OtherException "Incorrect padding").

Definition to_question_mark : string -> string := fun _ => "?".

(** * Properties *)

(** ** Membership and the primary key *)

Lemma mem_In (x : Z) (l : list Z) : mem x l = true <-> In x l.
Proof.
  induction l as [|y t IH]; simpl.
  - split; [discriminate | tauto].
  - rewrite orb_true_iff, IH, Z.eqb_eq. split; intros [H|H]; auto.
Qed.

Lemma mem_not_In (x : Z) (l : list Z) : mem x l = false <-> ~ In x l.
Proof.
  rewrite <- mem_In. destruct (mem x l); split; congruence.
Qed.

Lemma distinct_NoDup (l : list Z) : distinct l = true <-> NoDup l.
Proof.
  induction l as [|x t IH]; simpl.
  - split; [constructor | reflexivity].
  - rewrite andb_true_iff, negb_true_iff, mem_not_In, IH.
    split; [intros [Hx Ht]; now constructor | intros H; now inversion H].
Qed.

(** Two rows of a table with a primary key that carry the same id are the
    same row. *)
Lemma NoDup_map_inj {A B} (f : A -> B) (l : list A) (a b : A) :
  NoDup (map f l) -> In a l -> In b l -> f a = f b -> a = b.
Proof.
  induction l as [|x t IH]; simpl; [tauto|].
  intros Hnd Ha Hb Hf. inversion Hnd as [|? ? Hx Ht]; subst.
  destruct Ha as [->|Ha], Hb as [->|Hb]; auto.
  - exfalso. apply Hx. rewrite Hf. now apply in_map.
  - exfalso. apply Hx. rewrite <- Hf. now apply in_map.
Qed.

Lemma primary_key_inj (t : Table) (a b : TempOutbox) :
  primary_key t = true -> In a t -> In b t -> id a = id b -> a = b.
Proof.
  unfold primary_key. rewrite distinct_NoDup. apply NoDup_map_inj.
Qed.

Lemma NoDup_map_NoDup {A B} (f : A -> B) (l : list A) :
  NoDup (map f l) -> NoDup l.
Proof.
  induction l as [|x t IH]; simpl; intros H; [constructor|].
  inversion H as [|? ? Hx Ht]; subst. constructor; auto.
  intros Hin. apply Hx. now apply in_map.
Qed.

(** ** ORDER BY *)

Section OrderByFacts.
Context {A : Type} (leb : A -> A -> bool).
Hypothesis leb_total : forall a b, leb a b = true \/ leb b a = true.
Hypothesis leb_trans :
  forall a b c, leb a b = true -> leb b c = true -> leb a c = true.

Let le (a b : A) : Prop := leb a b = true.

Lemma insert_by_perm (r : A) (l : list A) :
  Permutation (insert_by leb r l) (r :: l).
Proof.
  induction l as [|x t IH]; simpl; [reflexivity|].
  destruct (leb r x); [reflexivity|].
  rewrite IH. apply perm_swap.
Qed.

Lemma sort_by_perm (l : list A) : Permutation (sort_by leb l) l.
Proof.
  induction l as [|x t IH]; simpl; [reflexivity|].
  rewrite insert_by_perm. now constructor.
Qed.

Lemma insert_by_sorted (r : A) (l : list A) :
  StronglySorted le l -> StronglySorted le (insert_by leb r l).
Proof.
  induction 1 as [|x t Ht IH Hx]; simpl.
  - repeat constructor.
  - destruct (leb r x) eqn:E.
    + constructor; [now constructor|].
      constructor; [exact E|].
      rewrite Forall_forall in *. intros y Hy.
      apply (leb_trans r x y); auto. now apply Hx.
    + constructor; [exact IH|].
      rewrite Forall_forall in *. intros y Hy.
      apply (Permutation_in _ (insert_by_perm r t)) in Hy.
      destruct Hy as [<-|Hy]; [|now apply Hx].
      unfold le. destruct (leb_total r x); congruence.
Qed.

Lemma sort_by_sorted (l : list A) : StronglySorted le (sort_by leb l).
Proof.
  induction l as [|x t IH]; simpl; [constructor|].
  now apply insert_by_sorted.
Qed.
End OrderByFacts.

(** A strict order admits one sorted arrangement of a given collection. *)
Lemma sorted_perm_unique {A} (lt : A -> A -> Prop) (l1 l2 : list A) :
  (forall a b, lt a b -> lt b a -> False) ->
  StronglySorted lt l1 -> StronglySorted lt l2 -> Permutation l1 l2 ->
  l1 = l2.
Proof.
  intros Hasym H1. revert l2.
  induction H1 as [|a t1 Ht1 IH Ha]; intros l2 H2 Hp.
  - apply Permutation_nil in Hp. now subst.
  - destruct H2 as [|b t2 Ht2 Hb].
    + apply Permutation_sym, Permutation_nil in Hp. discriminate.
    + assert (a = b) as ->.
      { assert (Hain : In a (b :: t2))
          by (apply (Permutation_in _ Hp); now left).
        assert (Hbin : In b (a :: t1))
          by (apply (Permutation_in _ (Permutation_sym Hp)); now left).
        destruct Hain as [->|Hain]; [reflexivity|].
        destruct Hbin as [->|Hbin]; [reflexivity|].
        rewrite Forall_forall in Ha, Hb.
        exfalso. apply (Hasym a b); auto. }
      f_equal. apply IH; [exact Ht2|].
      now apply Permutation_cons_inv in Hp.
Qed.

Lemma sorted_strengthen {A} (R S : A -> A -> Prop) (l : list A) :
  (forall a b, In a l -> In b l -> R a b -> a <> b -> S a b) ->
  NoDup l -> StronglySorted R l -> StronglySorted S l.
Proof.
  intros HRS Hnd Hs. induction Hs as [|a t Ht IH Ha]; [constructor|].
  inversion Hnd as [|? ? Hnin Hndt]; subst.
  constructor.
  - apply IH; [|exact Hndt]. intros x y Hx Hy. apply HRS; now right.
  - rewrite Forall_forall in *. intros y Hy. apply HRS; simpl; auto.
    intros ->. contradiction.
Qed.

Lemma sorted_firstn {A} (R : A -> A -> Prop) (n : nat) (l : list A) :
  StronglySorted R l -> StronglySorted R (firstn n l).
Proof.
  intros Hs. revert n. induction Hs as [|a t Ht IH Ha]; intros [|n]; simpl;
    try constructor; auto.
  rewrite Forall_forall in *. intros y Hy. apply Ha.
  rewrite <- (firstn_skipn n t). apply in_or_app. now left.
Qed.

Lemma sorted_firstn_skipn {A} (R : A -> A -> Prop) (n : nat) (l : list A) :
  StronglySorted R l ->
  forall x y, In x (firstn n l) -> In y (skipn n l) -> R x y.
Proof.
  intros Hs. revert n. induction Hs as [|a t Ht IH Ha]; intros [|n] x y;
    simpl; try tauto.
  intros [<-|Hx] Hy.
  - rewrite Forall_forall in Ha. apply Ha.
    rewrite <- (firstn_skipn n t). apply in_or_app. now right.
  - now apply (IH n).
Qed.

(** ** The pending query *)

Lemma queued_at_asc_total (a b : TempOutbox) :
  queued_at_asc a b = true \/ queued_at_asc b a = true.
Proof. unfold queued_at_asc. rewrite !Z.leb_le. lia. Qed.

Lemma queued_at_asc_trans (a b c : TempOutbox) :
  queued_at_asc a b = true -> queued_at_asc b c = true ->
  queued_at_asc a c = true.
Proof. unfold queued_at_asc. rewrite !Z.leb_le. lia. Qed.

Lemma queued_at_then_id_asc_spec (a b : TempOutbox) :
  Spec.queued_at_then_id_asc a b = true <->
  queued_at a < queued_at b \/ (queued_at a = queued_at b /\ id a <= id b).
Proof.
  unfold Spec.queued_at_then_id_asc.
  rewrite orb_true_iff, andb_true_iff, Z.ltb_lt, Z.eqb_eq, Z.leb_le. tauto.
Qed.

Lemma queued_at_then_id_asc_total (a b : TempOutbox) :
  Spec.queued_at_then_id_asc a b = true
  \/ Spec.queued_at_then_id_asc b a = true.
Proof. rewrite !queued_at_then_id_asc_spec. lia. Qed.

Lemma queued_at_then_id_asc_trans (a b c : TempOutbox) :
  Spec.queued_at_then_id_asc a b = true ->
  Spec.queued_at_then_id_asc b c = true ->
  Spec.queued_at_then_id_asc a c = true.
Proof. rewrite !queued_at_then_id_asc_spec. lia. Qed.

Lemma order_by_queued_at_perm (l : list TempOutbox) :
  Permutation (order_by_queued_at l) l.
Proof. apply sort_by_perm. Qed.

Lemma order_by_queued_at_sorted (l : list TempOutbox) :
  StronglySorted (fun r x => queued_at r <= queued_at x) (order_by_queued_at l).
Proof.
  pose proof (sort_by_sorted queued_at_asc queued_at_asc_total
                queued_at_asc_trans l) as H.
  eapply StronglySorted_ind with (P := StronglySorted _); [constructor| |exact H].
  intros a t _ IH Ha. constructor; [exact IH|].
  eapply Forall_impl; [|exact Ha]. intros x Hx. now apply Z.leb_le.
Qed.

Lemma is_pending_spec (r : TempOutbox) :
  is_pending r = true <-> delivered_at r = None /\ deleted_at r = None.
Proof.
  unfold is_pending. rewrite andb_true_iff.
  destruct (delivered_at r), (deleted_at r); simpl; intuition congruence.
Qed.

Lemma pending_rows_In (t : Table) (n : Z) (r : TempOutbox) :
  In r (pending_rows t n) -> In r t /\ is_pending r = true.
Proof.
  unfold pending_rows. intros H.
  assert (Hin : In r (order_by_queued_at (filter is_pending t))).
  { rewrite <- (firstn_skipn (Z.to_nat n)). apply in_or_app. now left. }
  apply (Permutation_in _ (order_by_queued_at_perm _)) in Hin.
  now apply filter_In in Hin.
Qed.

Lemma order_by_queued_at_length (l : list TempOutbox) :
  List.length (order_by_queued_at l) = List.length l.
Proof. apply Permutation_length, order_by_queued_at_perm. Qed.

Lemma pending_rows_len (t : Table) (n : Z) :
  0 <= n -> len (pending_rows t n) = Z.min n (count_pending t).
Proof.
  intros Hn. unfold pending_rows, count_pending, len.
  rewrite length_firstn, order_by_queued_at_length. lia.
Qed.

(** With pairwise distinct [queued_at], sorting on [queued_at] and sorting on
    [(queued_at, id)] arrange the rows the same way. *)
Lemma order_by_queued_at_refines (l : list TempOutbox) :
  distinct (map queued_at l) = true ->
  order_by_queued_at l = sort_by Spec.queued_at_then_id_asc l.
Proof.
  intros Hd.
  assert (Hndq : NoDup (map queued_at l)) by now apply distinct_NoDup.
  assert (Hinj : forall a b, In a l -> In b l ->
                             queued_at a = queued_at b -> a = b)
    by (intros a b; now apply NoDup_map_inj).
  apply (sorted_perm_unique (fun r x => queued_at r < queued_at x)).
  - intros a b. lia.
  - apply sorted_strengthen with (R := fun r x => queued_at r <= queued_at x).
    + intros a b Ha Hb Hle Hne.
      apply (Permutation_in _ (order_by_queued_at_perm l)) in Ha, Hb.
      assert (queued_at a <> queued_at b) by (intros E; now apply Hne, Hinj).
      lia.
    + apply (Permutation_NoDup (Permutation_sym (order_by_queued_at_perm l))).
      now apply NoDup_map_NoDup in Hndq.
    + apply order_by_queued_at_sorted.
  - apply sorted_strengthen
      with (R := fun r x => Spec.queued_at_then_id_asc r x = true).
    + intros a b Ha Hb Hle Hne.
      apply (Permutation_in _ (sort_by_perm _ l)) in Ha, Hb.
      assert (queued_at a <> queued_at b) by (intros E; now apply Hne, Hinj).
      apply queued_at_then_id_asc_spec in Hle. lia.
    + apply (Permutation_NoDup (Permutation_sym (sort_by_perm _ l))).
      now apply NoDup_map_NoDup in Hndq.
    + apply sort_by_sorted.
      * apply queued_at_then_id_asc_total.
      * apply queued_at_then_id_asc_trans.
  - rewrite order_by_queued_at_perm. symmetry. apply sort_by_perm.
Qed.

(** C3, as the code has it. When the store answers, the pending query
    returns at most [limit] rows, all of them pending rows of the table, in
    ascending [queued_at]; no pending row left out was queued before a
    returned one. The query orders on [queued_at] alone: rows queued at the
    same time come in the engine's order, and the result is the one ordered
    by [(queued_at, id)] when the pending rows have pairwise distinct
    [queued_at]. *)
Theorem query_pending_oldest_first (env : Env) (t : Table) (limit : Z) :
  select_fault env = None -> 0 <= limit ->
  exists rows,
    query_pending env t limit = Return rows
    /\ len rows <= limit
    /\ len rows = Z.min limit (count_pending t)
    /\ (forall r, In r rows ->
          In r t /\ delivered_at r = None /\ deleted_at r = None)
    /\ StronglySorted (fun r x => queued_at r <= queued_at x) rows
    /\ (forall r x, In r t -> is_pending r = true -> ~ In r rows ->
          In x rows -> queued_at x <= queued_at r)
    /\ (distinct (map queued_at (filter is_pending t)) = true ->
          rows = Spec.selectPending t limit).
Proof.
  intros Hs Hl. exists (pending_rows t limit).
  unfold query_pending. rewrite Hs.
  destruct (limit <? 0) eqn:E; [apply Z.ltb_lt in E; lia|].
  split; [reflexivity|].
  assert (Hlen := pending_rows_len t limit Hl).
  repeat split.
  - lia.
  - exact Hlen.
  - now apply pending_rows_In in H.
  - apply pending_rows_In in H. destruct H as [_ H].
    now apply is_pending_spec in H.
  - apply pending_rows_In in H. destruct H as [_ H].
    now apply is_pending_spec in H.
  - apply sorted_firstn, order_by_queued_at_sorted.
  - intros r x Hr Hp Hnot Hx. unfold pending_rows in *.
    apply (sorted_firstn_skipn _ (Z.to_nat limit) _
             (order_by_queued_at_sorted (filter is_pending t))); [exact Hx|].
    assert (Hin : In r (order_by_queued_at (filter is_pending t))).
    { apply (Permutation_in _ (Permutation_sym (order_by_queued_at_perm _))).
      apply filter_In. now split. }
    rewrite <- (firstn_skipn (Z.to_nat limit)) in Hin.
    apply in_app_or in Hin. tauto.
  - intros Hd. unfold pending_rows, Spec.selectPending.
    now rewrite order_by_queued_at_refines.
Qed.

(** C3 as stated fails on ties: of two pending rows queued at the same time
    and scanned with id 2 first, a query of limit 1 returns the row of id 2,
    not the row with the smallest [(queued_at, id)]. *)
Lemma query_pending_ties_in_scan_order :
  ~ (forall rows,
       query_pending (up always_200) tie_table 1 = Return rows ->
       rows = Spec.selectPending tie_table 1).
Proof.
  intros H. specialize (H _ eq_refl). vm_compute in H. discriminate H.
Qed.

Lemma query_pending_oldest_first_witness :
  exists rows,
    query_pending (up always_200) mixed_table 2 = Return rows
    /\ rows = [row 2 10 None None; row 5 20 None None]
    /\ rows = Spec.selectPending mixed_table 2.
Proof.
  destruct (query_pending_oldest_first (up always_200) mixed_table 2
              eq_refl ltac:(lia)) as (rows & Hq & _ & _ & _ & _ & _ & Hspec).
  exists rows. split; [exact Hq|]. split; [|apply Hspec; reflexivity].
  vm_compute in Hq. injection Hq as <-. reflexivity.
Defined.

(** ** The bulk update *)

Lemma update_delivered_at_length (ids : list Z) (now : DateTime) (t : Table) :
  List.length (update_delivered_at ids now t) = List.length t.
Proof. apply length_map. Qed.

Lemma update_delivered_at_nth (ids : list Z) (now : DateTime) (t : Table)
  (i : nat) (r : TempOutbox) :
  nth_error t i = Some r ->
  nth_error (update_delivered_at ids now t) i
  = Some (if mem (id r) ids then set_delivered_at now r else r).
Proof.
  intros H. unfold update_delivered_at. rewrite nth_error_map, H. reflexivity.
Qed.

(** The last timestamp wins. *)
Lemma update_delivered_at_twice (ids : list Z) (now now' : DateTime)
  (t : Table) :
  update_delivered_at ids now' (update_delivered_at ids now t)
  = update_delivered_at ids now' t.
Proof.
  unfold update_delivered_at. rewrite map_map. apply map_ext.
  intros r. destruct (mem (id r) ids) eqn:E; simpl; now rewrite E.
Qed.

Lemma filter_map_length {A B} (f : A -> B) (p : B -> bool) (l : list A) :
  List.length (filter p (map f l))
  = List.length (filter (fun a => p (f a)) l).
Proof.
  induction l as [|a t IH]; simpl; [reflexivity|].
  destruct (p (f a)); simpl; now rewrite IH.
Qed.

(** The rows still pending after the update: the pending rows not listed. *)
Lemma count_pending_update (ids : list Z) (now : DateTime) (t : Table) :
  count_pending (update_delivered_at ids now t)
  = len (filter (fun r => is_pending r && negb (mem (id r) ids)) t).
Proof.
  unfold count_pending, len, update_delivered_at. f_equal.
  rewrite filter_map_length. f_equal. apply filter_ext.
  intros r. destruct (mem (id r) ids); simpl.
  - now rewrite andb_false_r.
  - now rewrite andb_true_r.
Qed.

Lemma update_delivered_at_on_pending (ids : list Z) (now : DateTime)
  (t : Table) :
  (forall r, In r t -> mem (id r) ids = true -> is_pending r = true) ->
  update_delivered_at ids now t = Spec.markDelivered ids now t.
Proof.
  intros H. unfold update_delivered_at, Spec.markDelivered.
  apply map_ext_in. intros r Hr.
  destruct (mem (id r) ids) eqn:E; [|reflexivity].
  now rewrite (H r Hr E).
Qed.

(** C1, as the code has it. The bulk mark stamps every listed row, pending
    or not, and touches no other row; on listed rows that are all pending it
    is the marking of the pending ones. A second mark with the same ids
    changes no pending count; with the same timestamp it changes nothing,
    with another one the listed rows carry the last timestamp. *)
Theorem mark_delivered_stamps_listed (env : Env) (ids : list Z)
  (now now' : DateTime) (t : Table) :
  update_fault env = None -> commit_fault env = None ->
  exists t1 t2,
    mark_delivered env ids now t = Return t1
    /\ List.length t1 = List.length t
    /\ (forall i r, nth_error t i = Some r ->
          nth_error t1 i
          = Some (if mem (id r) ids then set_delivered_at now r else r))
    /\ ((forall r, In r t -> mem (id r) ids = true -> is_pending r = true) ->
          t1 = Spec.markDelivered ids now t)
    /\ mark_delivered env ids now t1 = Return t1
    /\ mark_delivered env ids now' t1 = Return t2
    /\ t2 = update_delivered_at ids now' t
    /\ count_pending t2 = count_pending t1.
Proof.
  intros Hu Hc. unfold mark_delivered. rewrite Hu, Hc.
  exists (update_delivered_at ids now t), (update_delivered_at ids now' t).
  split; [reflexivity|].
  split; [apply update_delivered_at_length|].
  split; [intros i r; apply update_delivered_at_nth|].
  split; [apply update_delivered_at_on_pending|].
  rewrite !update_delivered_at_twice.
  repeat split. now rewrite !count_pending_update.
Qed.

Lemma mark_delivered_stamps_listed_witness :
  exists t1 t2,
    mark_delivered (up always_200) [2; 3] 40 mixed_table = Return t1
    /\ nth_error t1 1 = Some (row 2 10 (Some 40) None)
    /\ nth_error t1 2 = Some (row 3 20 (Some 40) None)
    /\ mark_delivered (up always_200) [2; 3] 50 t1 = Return t2
    /\ count_pending t2 = count_pending t1.
Proof.
  destruct (mark_delivered_stamps_listed (up always_200) [2; 3] 40 50
              mixed_table eq_refl eq_refl)
    as (t1 & t2 & H1 & _ & Hn & _ & _ & H2 & _ & Hc).
  exists t1, t2. split; [exact H1|].
  split; [exact (Hn 1%nat _ eq_refl)|].
  split; [exact (Hn 2%nat _ eq_refl)|].
  split; [exact H2 | exact Hc].
Defined.

(** C1 as stated fails: a second mark of the same ids, made at a later
    clock value, changes the [delivered_at] of a row the first mark
    delivered. *)
Lemma mark_delivered_restamps :
  ~ (forall t1 t2,
       mark_delivered (up always_200) [1] 7 [row 1 5 None None] = Return t1 ->
       mark_delivered (up always_200) [1] 9 t1 = Return t2 ->
       map delivered_at t2 = map delivered_at t1).
Proof.
  intros H. specialize (H _ _ eq_refl eq_refl). vm_compute in H.
  discriminate H.
Qed.

(** ** The delivery loop *)

Lemma deliver_one_verdict (env : Env) (cfg : Settings) (st : Loop)
  (message : TempOutbox) :
  deliver_one env cfg st message
  = if verdict env (List.length (sent st))
    then {| delivered_ids := delivered_ids st ++ [id message];
            failed_ids := failed_ids st;
            sent := sent st ++ [build_request cfg message] |}
    else {| delivered_ids := delivered_ids st;
            failed_ids := failed_ids st ++ [id message];
            sent := sent st ++ [build_request cfg message] |}.
Proof.
  unfold deliver_one, _deliver_to_primary, verdict.
  destruct (primary env (List.length (sent st))) as [code|e]; simpl;
    [destruct (code =? 200)|]; reflexivity.
Qed.

(** The loop appends to [delivered_ids] the ids of the rows whose post got a
    [True], to [failed_ids] the ids of the others, and makes one post per
    row of the batch, in the order of the batch. *)
Lemma deliver_all_spec (env : Env) (cfg : Settings)
  (batch : list TempOutbox) (st : Loop) :
  let k := List.length (sent st) in
  deliver_all env cfg st batch
  = {| delivered_ids := delivered_ids st ++ map id (rows_with env true k batch);
       failed_ids := failed_ids st ++ map id (rows_with env false k batch);
       sent := sent st ++ map (build_request cfg) batch |}.
Proof.
  revert st. induction batch as [|r rest IH]; intros st; simpl.
  - rewrite !app_nil_r. now destruct st.
  - unfold deliver_all in *. simpl. rewrite IH, deliver_one_verdict.
    destruct (verdict env (List.length (sent st))); simpl;
      rewrite length_app, Nat.add_1_r, <- !app_assoc; reflexivity.
Qed.

Lemma rows_with_incl (env : Env) (b : bool) (k : nat)
  (batch : list TempOutbox) (r : TempOutbox) :
  In r (rows_with env b k batch) -> In r batch.
Proof.
  revert k. induction batch as [|x rest IH]; intros k; simpl; [tauto|].
  destruct (Bool.eqb (verdict env k) b); simpl; intros H.
  - destruct H as [->|H]; eauto.
  - eauto.
Qed.

(** Every row of the batch lands in exactly one of the two lists. *)
Lemma rows_with_partition (env : Env) (k : nat) (batch : list TempOutbox) :
  Permutation (rows_with env true k batch ++ rows_with env false k batch)
    batch.
Proof.
  revert k. induction batch as [|x rest IH]; intros k; simpl; [constructor|].
  destruct (verdict env k); simpl.
  - constructor. apply IH.
  - rewrite <- Permutation_middle. constructor. apply IH.
Qed.

Lemma rows_with_len (env : Env) (k : nat) (batch : list TempOutbox) :
  len (rows_with env true k batch) + len (rows_with env false k batch)
  = len batch.
Proof.
  unfold len. rewrite <- (Permutation_length (rows_with_partition env k batch)).
  rewrite length_app. lia.
Qed.

Lemma rows_with_ids_disjoint (env : Env) (k : nat)
  (batch : list TempOutbox) (x : Z) :
  NoDup (map id batch) ->
  In x (map id (rows_with env true k batch)) ->
  In x (map id (rows_with env false k batch)) -> False.
Proof.
  revert k. induction batch as [|r rest IH]; intros k Hnd; simpl; [tauto|].
  inversion Hnd as [|? ? Hr Hrest]; subst.
  assert (Hsub : forall b j, In x (map id (rows_with env b j rest)) ->
                             In x (map id rest)).
  { intros b j H. apply in_map_iff in H. destruct H as (y & <- & Hy).
    apply in_map. eapply rows_with_incl; eauto. }
  destruct (verdict env k); simpl; intros Ht Hf.
  - destruct Ht as [<-|Ht]; [apply Hr; eauto | eapply IH; eauto].
  - destruct Hf as [<-|Hf]; [apply Hr; eauto | eapply IH; eauto].
Qed.

(** ** One cycle *)

(** [drain_batch], with its loop read through [rows_with]. *)
Lemma drain_batch_unfold (env : Env) (cfg : Settings) (now : DateTime)
  (n : Z) (w : World) :
  drain_batch env cfg now n w
  = match query_pending env (db w) n with
    | Raise e => (Raise e, w)
    | Return batch =>
        let good := rows_with env true (List.length (posted w)) batch in
        let bad := rows_with env false (List.length (posted w)) batch in
        let log := posted w ++ map (build_request cfg) batch in
        let result := {| processed := len batch;
                         delivered := len good;
                         failed := len bad |} in
        if is_empty batch then
          (Return {| processed := 0; delivered := 0; failed := 0 |}, w)
        else if is_empty good then
          (Return result, {| db := db w; posted := log |})
        else
          match mark_delivered env (map id good) now (db w) with
          | Raise e => (Raise e, {| db := db w; posted := log |})
          | Return t' => (Return result, {| db := t'; posted := log |})
          end
    end.
Proof.
  unfold drain_batch.
  destruct (query_pending env (db w) n) as [batch|e]; [|reflexivity].
  destruct (is_empty batch) eqn:E; [reflexivity|].
  rewrite deliver_all_spec. simpl. unfold len. rewrite !length_map.
  destruct (rows_with env true (List.length (posted w)) batch); reflexivity.
Qed.

(** ** One delivery attempt *)

Lemma app_one_neq {A} (l : list A) (x : A) : l ++ [x] <> l.
Proof.
  intros H. apply (f_equal (@List.length A)) in H.
  rewrite length_app in H. simpl in H. lia.
Qed.

(** C4, as the code has it. A delivery attempt returns [True] exactly when
    the primary server answers with status 200; every other status, the
    other 2xx ones included, and every exception give [False]. The row's id
    then goes to [delivered_ids] in the first case and to [failed_ids] in
    the second, and the attempt never raises. *)
Theorem deliver_to_primary_only_200 (env : Env) (cfg : Settings) (st : Loop)
  (message : TempOutbox) :
  let k := List.length (sent st) in
  let st' := deliver_one env cfg st message in
  (_deliver_to_primary env k message = Return true
   <-> primary env k = Response 200)
  /\ (_deliver_to_primary env k message = Return false
      <-> primary env k <> Response 200)
  /\ (primary env k = Response 200
      <-> delivered_ids st' = delivered_ids st ++ [id message]
          /\ failed_ids st' = failed_ids st)
  /\ (primary env k <> Response 200
      <-> delivered_ids st' = delivered_ids st
          /\ failed_ids st' = failed_ids st ++ [id message]).
Proof.
  intros k st'. subst st'. rewrite deliver_one_verdict. fold k.
  unfold _deliver_to_primary, verdict.
  assert (Hcode : forall code, code <> 200 -> Response code <> Response 200)
    by congruence.
  destruct (primary env k) as [code|e];
    [destruct (code =? 200) eqn:E;
       [apply Z.eqb_eq in E; subst code
       |apply Z.eqb_neq in E; apply Hcode in E]|];
    simpl; repeat split; intros;
    repeat match goal with H : _ /\ _ |- _ => destruct H end;
    try congruence; try tauto;
    exfalso; eapply app_one_neq; (eassumption || (symmetry; eassumption)).
Qed.

(** C4 as stated fails: the 2xx status 201 is a failed delivery. *)
Lemma created_201_is_failed :
  ~ (forall code, 200 <= code <= 299 ->
       _deliver_to_primary (up (fun _ => Response code)) 0
         (row 1 5 None None) = Return true).
Proof.
  intros H. specialize (H 201 ltac:(lia)). vm_compute in H. discriminate H.
Qed.

(** ** Ids of a batch *)

Lemma filter_keeps_keys_distinct {A B} (key : A -> B) (keep : A -> bool) :
  forall rows, NoDup (map key rows) -> NoDup (map key (filter keep rows)).
Proof.
  intros rows. induction rows as [|x t IH]; simpl; intros H; [constructor|].
  inversion H as [|? ? Hx Ht]; subst.
  destruct (keep x); simpl; auto. constructor; auto.
  intros Hin. apply Hx. apply in_map_iff in Hin.
  destruct Hin as (y & <- & Hy). apply in_map.
  now apply filter_In in Hy.
Qed.

Lemma NoDup_firstn {A} (n : nat) (l : list A) :
  NoDup l -> NoDup (firstn n l).
Proof.
  intros H. revert n. induction H as [|x t Hx Ht IH]; intros [|n]; simpl;
    try constructor; auto.
  intros Hin. apply Hx. rewrite <- (firstn_skipn n t).
  apply in_or_app. now left.
Qed.

Lemma pending_rows_ids_NoDup (t : Table) (n : Z) :
  primary_key t = true -> NoDup (map id (pending_rows t n)).
Proof.
  unfold primary_key, pending_rows. rewrite distinct_NoDup. intros H.
  rewrite <- firstn_map. apply NoDup_firstn.
  apply (Permutation_NoDup
           (Permutation_map id
              (Permutation_sym (order_by_queued_at_perm _)))).
  now apply filter_keeps_keys_distinct.
Qed.

Lemma rows_with_ids_NoDup (env : Env) (b : bool) (k : nat)
  (batch : list TempOutbox) :
  NoDup (map id batch) -> NoDup (map id (rows_with env b k batch)).
Proof.
  revert k. induction batch as [|x rest IH]; intros k H; simpl;
    [constructor|].
  inversion H as [|? ? Hx Hrest]; subst.
  destruct (Bool.eqb (verdict env k) b); simpl; auto.
  constructor; auto. intros Hin. apply Hx.
  apply in_map_iff in Hin. destruct Hin as (y & <- & Hy).
  apply in_map. eapply rows_with_incl; eauto.
Qed.

(** A row that is not pending is not listed by a cycle: under the primary
    key, the listed ids are ids of pending rows only. *)
Lemma not_pending_not_listed (env : Env) (k : nat) (t : Table) (n : Z)
  (r : TempOutbox) :
  primary_key t = true -> In r t -> is_pending r = false ->
  mem (id r) (map id (rows_with env true k (pending_rows t n))) = false.
Proof.
  intros Hpk Hr Hnp. apply mem_not_In. intros Hin.
  apply in_map_iff in Hin. destruct Hin as (g & Hid & Hg).
  apply rows_with_incl, pending_rows_In in Hg. destruct Hg as [Hg Hp].
  assert (g = r) by (eapply primary_key_inj; eauto). congruence.
Qed.

Lemma filter_andb {A} (p q : A -> bool) (l : list A) :
  filter (fun a => p a && q a) l = filter q (filter p l).
Proof.
  induction l as [|x t IH]; simpl; [reflexivity|].
  destruct (p x); simpl; [|exact IH]. destruct (q x); now rewrite IH.
Qed.

(** The pending rows listed by an update of a table with a primary key are
    as many as the listed rows, when these are pending rows of the table. *)
Lemma count_pending_listed (t : Table) (good : list TempOutbox)
  (now : DateTime) :
  primary_key t = true ->
  NoDup (map id good) ->
  (forall g, In g good -> In g t /\ is_pending g = true) ->
  count_pending (update_delivered_at (map id good) now t)
  = count_pending t - len good.
Proof.
  intros Hpk Hnd Hgood. rewrite count_pending_update.
  unfold count_pending, len.
  pose (listed := fun r : TempOutbox => mem (id r) (map id good)).
  change (Z.of_nat
            (List.length (filter (fun r => is_pending r && negb (listed r)) t))
          = Z.of_nat (List.length (filter is_pending t))
            - Z.of_nat (List.length good)).
  rewrite (filter_andb is_pending (fun r => negb (listed r))).
  pose proof (filter_length listed (filter is_pending t)) as Hlen.
  assert (Hperm : Permutation (filter listed (filter is_pending t)) good).
  { apply NoDup_Permutation.
    - apply NoDup_filter, NoDup_filter.
      apply (NoDup_map_NoDup id). now apply distinct_NoDup.
    - now apply (NoDup_map_NoDup id).
    - intros x. rewrite !filter_In. unfold listed. rewrite mem_In. split.
      + intros [[Hx Hp] Hin]. apply in_map_iff in Hin.
        destruct Hin as (g & Hid & Hg).
        destruct (Hgood g Hg) as [Hgt _].
        assert (g = x) by (eapply primary_key_inj; eauto). now subst.
      + intros Hx. destruct (Hgood x Hx). repeat split; auto.
        now apply in_map. }
  apply Permutation_length in Hperm. lia.
Qed.

(** ** The ways through a cycle *)

Lemma query_pending_Return (env : Env) (t : Table) (n : Z)
  (batch : list TempOutbox) :
  query_pending env t n = Return batch ->
  select_fault env = None /\ 0 <= n /\ batch = pending_rows t n.
Proof.
  unfold query_pending. destruct (select_fault env); [discriminate|].
  destruct (n <? 0) eqn:E; [discriminate|]. apply Z.ltb_ge in E.
  intros [= <-]. auto.
Qed.

Lemma query_pending_up (env : Env) (t : Table) (n : Z) :
  select_fault env = None -> 0 <= n ->
  query_pending env t n = Return (pending_rows t n).
Proof.
  intros Hs Hn. unfold query_pending. rewrite Hs.
  destruct (n <? 0) eqn:E; [apply Z.ltb_lt in E; lia | reflexivity].
Qed.

Lemma mark_delivered_Raise (env : Env) (ids : list Z) (now : DateTime)
  (t : Table) (e : PyException) :
  mark_delivered env ids now t = Raise e ->
  update_fault env = Some e
  \/ (update_fault env = None /\ commit_fault env = Some e).
Proof.
  unfold mark_delivered.
  destruct (update_fault env); [intros [= ->]; now left|].
  destruct (commit_fault env); [intros [= ->]; now right | discriminate].
Qed.

Lemma drain_batch_Cycle (env : Env) (cfg : Settings) (now : DateTime)
  (n : Z) (w : World) :
  Cycle env cfg now n w (drain_batch env cfg now n w).
Proof.
  rewrite drain_batch_unfold.
  destruct (query_pending env (db w) n) as [batch|e] eqn:Hq;
    [|now apply SelectRaised].
  destruct batch as [|r rest] eqn:Hb; simpl is_empty; cbv iota.
  - now apply NothingPending.
  - rewrite <- Hb in *. cbv zeta.
    assert (Hlen := rows_with_len env (List.length (posted w)) batch).
    destruct (rows_with env true (List.length (posted w)) batch)
      as [|g good] eqn:Hg; simpl is_empty; cbv iota.
    + replace (len (rows_with env false (List.length (posted w)) batch))
        with (len batch) by (unfold len in *; simpl in Hlen; lia).
      apply NothingDelivered; auto. subst batch. discriminate.
    + rewrite <- Hg in *.
      assert (Hne : rows_with env true (List.length (posted w)) batch <> [])
        by (rewrite Hg; discriminate).
      destruct (mark_delivered env _ now (db w)) as [t'|e] eqn:Hm.
      * unfold mark_delivered in Hm.
        destruct (update_fault env) eqn:Hu; [discriminate|].
        destruct (commit_fault env) eqn:Hc; [discriminate|].
        injection Hm as <-. now apply Marked.
      * now apply MarkRaised.
Qed.

(** ** The frame of a cycle *)

Lemma same_but_delivered_at_refl (t : Table) : same_but_delivered_at t t.
Proof. repeat split. Qed.

Lemma update_delivered_at_frame (ids : list Z) (now : DateTime) (t : Table) :
  same_but_delivered_at t (update_delivered_at ids now t).
Proof.
  unfold same_but_delivered_at, update_delivered_at.
  rewrite !map_map.
  repeat split; apply map_ext; intros r; now destruct (mem (id r) ids).
Qed.

Lemma drain_batch_frame (env : Env) (cfg : Settings) (now : DateTime)
  (n : Z) (w : World) :
  same_but_delivered_at (db w) (db (snd (drain_batch env cfg now n w))).
Proof.
  destruct (drain_batch_Cycle env cfg now n w); simpl;
    auto using same_but_delivered_at_refl, update_delivered_at_frame.
Qed.

Lemma drain_messages_world (env : Env) (cfg : Settings) (now : DateTime)
  (w : World) :
  snd (drain_messages env cfg now w)
  = snd (drain_batch env cfg now (DRAIN_BATCH_SIZE cfg) w).
Proof.
  unfold drain_messages.
  now destruct (drain_batch env cfg now (DRAIN_BATCH_SIZE cfg) w) as [[r|e] w'].
Qed.

(** C10. A cycle, run by the service or through the endpoint, leaves the
    table with the same number of rows and, position by position, the same
    [id], [room_id], [sender_handle], [cipher_blob], [filter_version],
    [queued_at] and [deleted_at]: it writes [delivered_at] only, and
    inserts or removes no row. *)
Theorem drain_cycle_writes_delivered_at_only (env : Env) (cfg : Settings)
  (now : DateTime) (n : Z) (w : World) :
  let t' := db (snd (drain_batch env cfg now n w)) in
  let t'' := db (snd (drain_messages env cfg now w)) in
  List.length t' = List.length (db w)
  /\ map id t' = map id (db w)
  /\ map room_id t' = map room_id (db w)
  /\ map sender_handle t' = map sender_handle (db w)
  /\ map cipher_blob t' = map cipher_blob (db w)
  /\ map filter_version t' = map filter_version (db w)
  /\ map queued_at t' = map queued_at (db w)
  /\ map deleted_at t' = map deleted_at (db w)
  /\ same_but_delivered_at (db w) t''.
Proof.
  intros t' t''. subst t' t''.
  destruct (drain_batch_frame env cfg now n w) as (Hid & H).
  split; [|split; [exact Hid|]].
  - rewrite <- (length_map id), Hid. apply length_map.
  - decompose [and] H. repeat split; auto;
      rewrite drain_messages_world; apply drain_batch_frame.
Qed.

(** ** A cycle with nothing pending *)

Lemma count_pending_0 (t : Table) (n : Z) :
  count_pending t = 0 -> pending_rows t n = [].
Proof.
  unfold count_pending, len, pending_rows. intros H.
  destruct (filter is_pending t); [now rewrite firstn_nil | simpl in H; lia].
Qed.

Lemma drain_batch_zero (env : Env) (cfg : Settings) (now : DateTime)
  (n : Z) (w : World) :
  count_pending (db w) = 0 -> select_fault env = None -> 0 <= n ->
  drain_batch env cfg now n w
  = (Return {| processed := 0; delivered := 0; failed := 0 |}, w).
Proof.
  intros H0 Hs Hn. unfold drain_batch.
  rewrite (query_pending_up _ _ _ Hs Hn), (count_pending_0 _ _ H0).
  reflexivity.
Qed.

(** C7. With no pending row, a cycle leaves the world as it is: no post is
    made and the table is not written. When the store answers the query,
    the cycle returns zeros, and so does the endpoint. *)
Theorem drain_batch_nothing_pending (env : Env) (cfg : Settings)
  (now : DateTime) (n : Z) (w : World) :
  count_pending (db w) = 0 ->
  snd (drain_batch env cfg now n w) = w
  /\ (select_fault env = None -> 0 <= n ->
      drain_batch env cfg now n w
      = (Return {| processed := 0; delivered := 0; failed := 0 |}, w))
  /\ (select_fault env = None -> 0 <= DRAIN_BATCH_SIZE cfg ->
      drain_messages env cfg now w
      = (Json {| run_success := true; run_processed := 0;
                 run_delivered := 0; run_failed := 0 |}, w)).
Proof.
  intros H0. split; [|split].
  - unfold drain_batch, query_pending.
    destruct (select_fault env); [reflexivity|].
    destruct (n <? 0); [reflexivity|].
    now rewrite (count_pending_0 _ _ H0).
  - now apply drain_batch_zero.
  - intros Hs Hm. unfold drain_messages.
    now rewrite (drain_batch_zero _ _ _ _ _ H0 Hs Hm).
Qed.

Lemma drain_batch_nothing_pending_witness :
  let w := {| db := [row 1 5 (Some 9) None; row 2 6 None (Some 7)];
              posted := [] |} in
  drain_batch (up always_200) settings 50 100 w
  = (Return {| processed := 0; delivered := 0; failed := 0 |}, w).
Proof.
  intros w.
  apply (drain_batch_nothing_pending (up always_200) settings 50 100 w);
    [reflexivity | reflexivity | lia].
Defined.

(** ** Delivered rows stay as they are *)

Lemma drain_batch_primary_key (env : Env) (cfg : Settings) (now : DateTime)
  (n : Z) (w : World) :
  primary_key (db w) = true ->
  primary_key (db (snd (drain_batch env cfg now n w))) = true.
Proof.
  unfold primary_key.
  now destruct (drain_batch_frame env cfg now n w) as (-> & _).
Qed.

(** A row that is not pending, delivered or tombstoned, is not written by a
    cycle. *)
Lemma drain_batch_keeps_settled (env : Env) (cfg : Settings) (now : DateTime)
  (n : Z) (w : World) (i : nat) (r : TempOutbox) :
  primary_key (db w) = true ->
  nth_error (db w) i = Some r -> is_pending r = false ->
  nth_error (db (snd (drain_batch env cfg now n w))) i = Some r.
Proof.
  intros Hpk Hi Hnp.
  destruct (drain_batch_Cycle env cfg now n w) as [| | | |batch Hq]; simpl;
    auto.
  apply query_pending_Return in Hq. destruct Hq as (_ & _ & ->).
  rewrite (update_delivered_at_nth _ _ _ _ _ Hi).
  rewrite not_pending_not_listed; auto. eapply nth_error_In; eauto.
Qed.

Lemma step_primary_key (w : World) (o : Op) :
  primary_key (db w) = true -> primary_key (db (step w o)) = true.
Proof.
  destruct o as [env cfg now|env cfg]; simpl.
  - rewrite drain_messages_world. apply drain_batch_primary_key.
  - unfold drain_status. now destruct (count_fault env).
Qed.

Lemma step_keeps_settled (w : World) (o : Op) (i : nat) (r : TempOutbox) :
  primary_key (db w) = true ->
  nth_error (db w) i = Some r -> is_pending r = false ->
  nth_error (db (step w o)) i = Some r.
Proof.
  destruct o as [env cfg now|env cfg]; simpl.
  - rewrite drain_messages_world. apply drain_batch_keeps_settled.
  - unfold drain_status. now destruct (count_fault env).
Qed.

Lemma run_ops_primary_key (ops : list Op) (w : World) :
  primary_key (db w) = true -> primary_key (db (run_ops ops w)) = true.
Proof.
  revert w. induction ops as [|o ops IH]; intros w H; simpl; [exact H|].
  apply IH. now apply step_primary_key.
Qed.

Lemma run_ops_keeps_settled (ops : list Op) (w : World) (i : nat)
  (r : TempOutbox) :
  primary_key (db w) = true ->
  nth_error (db w) i = Some r -> is_pending r = false ->
  nth_error (db (run_ops ops w)) i = Some r.
Proof.
  revert w. induction ops as [|o ops IH]; intros w Hpk Hi Hnp; simpl;
    [exact Hi|].
  apply IH; [now apply step_primary_key | now apply step_keeps_settled | exact Hnp].
Qed.

(** Over a table with its primary key, once a run of whole cycles and
    status reads has left a row with [delivered_at] set, every longer run
    leaves that row exactly as it was then: [delivered_at] is neither
    cleared nor changed, and the row is not pending again. *)
Theorem delivered_at_write_once (before after : list Op) (w : World)
  (i : nat) (r : TempOutbox) (stamp : DateTime) :
  primary_key (db w) = true ->
  nth_error (db (run_ops before w)) i = Some r ->
  delivered_at r = Some stamp ->
  nth_error (db (run_ops (before ++ after) w)) i = Some r
  /\ forall r', nth_error (db (run_ops (before ++ after) w)) i = Some r' ->
       delivered_at r' = Some stamp /\ is_pending r' = false.
Proof.
  intros Hpk Hi Hd.
  assert (Hnp : is_pending r = false) by (unfold is_pending; now rewrite Hd).
  assert (Hrow : nth_error (db (run_ops (before ++ after) w)) i = Some r).
  { unfold run_ops. rewrite fold_left_app.
    apply run_ops_keeps_settled; auto. now apply run_ops_primary_key. }
  split; [exact Hrow|]. intros r' Hr'. rewrite Hrow in Hr'.
  injection Hr' as <-. auto.
Qed.

Lemma delivered_at_write_once_witness :
  let w := {| db := [row 1 10 None None; row 2 20 None None];
              posted := [] |} in
  let before :=
    [Run (up (fun k => if Nat.eqb k 0 then Response 200 else Response 500))
       settings 40] in
  let after := [Status (up always_200) settings;
                Run (up always_200) settings 50] in
  db (run_ops before w) = [row 1 10 (Some 40) None; row 2 20 None None]
  /\ nth_error (db (run_ops (before ++ after) w)) 0
     = Some (row 1 10 (Some 40) None).
Proof.
  intros w before after. split; [reflexivity|].
  apply (delivered_at_write_once before after w 0
           (row 1 10 (Some 40) None) 40);
    reflexivity.
Defined.

(** A row that is not pending stays so under any UPDATE of the cycles. *)
Lemma run_marks_keeps_delivered (marks : list (list Z * DateTime)) :
  forall (t : Table) (i : nat) (r : TempOutbox),
    nth_error t i = Some r -> delivered_at r <> None ->
    exists r', nth_error (run_marks marks t) i = Some r'
               /\ id r' = id r
               /\ delivered_at r' <> None /\ is_pending r' = false.
Proof.
  induction marks as [|[ids now] marks IH]; intros t i r Hi Hd.
  - exists r. split; [exact Hi|]. split; [reflexivity|]. split; [exact Hd|].
    unfold is_pending. destruct (delivered_at r); [reflexivity | congruence].
  - unfold run_marks in *. cbn [fold_left fst snd].
    destruct (IH (update_delivered_at ids now t) i
                (if mem (id r) ids then set_delivered_at now r else r))
      as (r' & Hr' & Hid & Hrest).
    + now apply update_delivered_at_nth.
    + destruct (mem (id r) ids); [discriminate | exact Hd].
    + exists r'. split; [exact Hr'|]. split; [|exact Hrest].
      rewrite Hid. now destruct (mem (id r) ids).
Qed.

(** C2, as the code has it. Once [delivered_at] of a row is set, no UPDATE
    of any cycle clears it, in whatever order the UPDATEs of overlapping
    cycles run: the row stays delivered and never goes back to pending. Over
    a table with its primary key and under whole cycles and status reads
    run one after another, the row also keeps its timestamp and every other
    field. *)
Theorem delivered_at_never_cleared (i : nat) (r : TempOutbox)
  (stamp : DateTime) :
  delivered_at r = Some stamp ->
  (forall (marks : list (list Z * DateTime)) (t : Table),
     nth_error t i = Some r ->
     exists r', nth_error (run_marks marks t) i = Some r'
                /\ id r' = id r
                /\ delivered_at r' <> None /\ is_pending r' = false)
  /\ (forall (before after : list Op) (w : World),
        primary_key (db w) = true ->
        nth_error (db (run_ops before w)) i = Some r ->
        nth_error (db (run_ops (before ++ after) w)) i = Some r
        /\ forall r',
             nth_error (db (run_ops (before ++ after) w)) i = Some r' ->
             delivered_at r' = Some stamp /\ is_pending r' = false).
Proof.
  intros Hd. split.
  - intros marks t Hi. apply (run_marks_keeps_delivered marks t i r Hi).
    congruence.
  - intros before after w Hpk Hi.
    now apply (delivered_at_write_once before after w i r stamp).
Qed.

Lemma delivered_at_never_cleared_witness :
  let w := {| db := [row 1 10 None None; row 2 20 None None];
              posted := [] |} in
  let before :=
    [Run (up (fun k => if Nat.eqb k 0 then Response 200 else Response 500))
       settings 40] in
  let after := [Status (up always_200) settings;
                Run (up always_200) settings 50] in
  nth_error (db (run_ops (before ++ after) w)) 0
  = Some (row 1 10 (Some 40) None)
  /\ exists r',
       nth_error
         (run_marks [([1], 50); ([1; 2], 60)] (db (run_ops before w))) 0
       = Some r'
       /\ id r' = 1
       /\ delivered_at r' <> None /\ is_pending r' = false.
Proof.
  intros w before after.
  destruct (delivered_at_never_cleared 0 (row 1 10 (Some 40) None) 40
              eq_refl) as [Hmarks Hruns].
  split.
  - apply (Hruns before after w); reflexivity.
  - apply Hmarks. reflexivity.
Defined.

(** C2 as stated fails when two cycles overlap: both select the pending
    row before either marks it, both deliver it, and the mark of the second
    changes the [delivered_at] the first had set, from 7 to 9. *)
Lemma overlapping_cycles_restamp :
  let t0 := [row 1 5 None None] in
  let env := up always_200 in
  let loop := {| delivered_ids := []; failed_ids := []; sent := [] |} in
  ~ (forall batch_a batch_b t1 t2,
       query_pending env t0 100 = Return batch_a ->
       query_pending env t0 100 = Return batch_b ->
       mark_delivered env
         (delivered_ids (deliver_all env settings loop batch_a)) 7 t0
       = Return t1 ->
       mark_delivered env
         (delivered_ids (deliver_all env settings loop batch_b)) 9 t1
       = Return t2 ->
       forall i r,
         nth_error t1 i = Some r -> delivered_at r <> None ->
         nth_error t2 i = Some r).
Proof.
  intros t0 env loop H.
  specialize (H _ _ _ _ eq_refl eq_refl eq_refl eq_refl 0%nat
                (row 1 5 (Some 7) None) eq_refl ltac:(discriminate)).
  vm_compute in H. discriminate H.
Qed.

(** ** What a cycle that returns has done *)

Lemma update_delivered_at_nil (now : DateTime) (t : Table) :
  update_delivered_at [] now t = t.
Proof. unfold update_delivered_at. simpl. apply map_id. Qed.

(** A cycle that returns has selected the pending rows of the query, posted
    each of them once, stamped the rows whose post succeeded, and counted
    the batch, the successes and the failures. *)
Lemma drain_batch_Return (env : Env) (cfg : Settings) (now : DateTime)
  (n : Z) (w w' : World) (result : DrainResult) :
  drain_batch env cfg now n w = (Return result, w') ->
  let batch := pending_rows (db w) n in
  let good := rows_with env true (List.length (posted w)) batch in
  let bad := rows_with env false (List.length (posted w)) batch in
  result = {| processed := len batch;
              delivered := len good;
              failed := len bad |}
  /\ w' = {| db := update_delivered_at (map id good) now (db w);
             posted := posted w ++ map (build_request cfg) batch |}.
Proof.
  intros H. pose proof (drain_batch_Cycle env cfg now n w) as Hc.
  rewrite H in Hc. clear H.
  remember (Return result, w') as out eqn:Ho.
  destruct Hc as [e Hq|Hq|batch Hq Hne Hg|batch e Hq Hne Hm
                 |batch Hq Hne Hu Hcm];
    try discriminate Ho; injection Ho as <- <-;
    apply query_pending_Return in Hq; destruct Hq as (_ & _ & Hq);
    cbv zeta; rewrite <- Hq.
  - simpl. rewrite update_delivered_at_nil, app_nil_r. now destruct w.
  - assert (Hlen := rows_with_len env (List.length (posted w)) batch).
    rewrite Hg in *. simpl. rewrite update_delivered_at_nil.
    split; [|reflexivity]. f_equal. unfold len in *. simpl in Hlen. lia.
  - split; reflexivity.
Qed.

Lemma update_delivered_at_In (ids : list Z) (now : DateTime) (t : Table)
  (r' : TempOutbox) :
  In r' (update_delivered_at ids now t) <->
  exists r, In r t
            /\ r' = if mem (id r) ids then set_delivered_at now r else r.
Proof.
  unfold update_delivered_at. rewrite in_map_iff.
  split; intros (r & H1 & H2); exists r; [split; auto | split; auto].
Qed.

Lemma pending_rows_all (t : Table) (m : Z) (r : TempOutbox) :
  count_pending t <= m -> In r t -> is_pending r = true ->
  In r (pending_rows t m).
Proof.
  unfold count_pending, len, pending_rows. intros Hm Hr Hp.
  rewrite firstn_all2 by (rewrite order_by_queued_at_length; lia).
  apply (Permutation_in _ (Permutation_sym (order_by_queued_at_perm _))).
  apply filter_In. now split.
Qed.

(** The pending count drops by the number of rows delivered. *)
Lemma drain_batch_pending_count (env : Env) (cfg : Settings) (now : DateTime)
  (n : Z) (w w' : World) (result : DrainResult) :
  primary_key (db w) = true ->
  drain_batch env cfg now n w = (Return result, w') ->
  count_pending (db w') = count_pending (db w) - delivered result.
Proof.
  intros Hpk H. destruct (drain_batch_Return _ _ _ _ _ _ _ H) as [-> ->].
  simpl. apply count_pending_listed; auto.
  - now apply rows_with_ids_NoDup, pending_rows_ids_NoDup.
  - intros g Hg. eapply pending_rows_In, rows_with_incl, Hg.
Qed.

(** C5. A cycle that returns has put every selected row in exactly one of
    the two lists, so that [failed = processed - delivered]; with two rows
    selected and one delivered the result is 2, 1, 1. The pending count
    drops by [delivered]. A row whose delivery failed is still in the table,
    unchanged and pending, and is selected by any later query large enough;
    a row whose delivery succeeded carries the timestamp, no row of its id
    is pending, and no later query returns it. *)
Theorem drain_batch_counts (env : Env) (cfg : Settings) (now : DateTime)
  (n : Z) (w w' : World) (result : DrainResult) :
  primary_key (db w) = true ->
  drain_batch env cfg now n w = (Return result, w') ->
  let batch := pending_rows (db w) n in
  let good := rows_with env true (List.length (posted w)) batch in
  let bad := rows_with env false (List.length (posted w)) batch in
  Permutation (good ++ bad) batch
  /\ processed result = len batch
  /\ delivered result = len good
  /\ failed result = len bad
  /\ failed result = processed result - delivered result
  /\ (processed result = 2 -> delivered result = 1 ->
      result = {| processed := 2; delivered := 1; failed := 1 |})
  /\ count_pending (db w') = count_pending (db w) - delivered result
  /\ (forall r, In r bad ->
        In r (db w') /\ is_pending r = true
        /\ forall m, count_pending (db w') <= m ->
             In r (pending_rows (db w') m))
  /\ (forall r, In r good ->
        In (set_delivered_at now r) (db w')
        /\ (forall r', In r' (db w') -> id r' = id r -> is_pending r' = false)
        /\ forall m, ~ In (id r) (map id (pending_rows (db w') m))).
Proof.
  intros Hpk H batch good bad.
  assert (Hcount := drain_batch_pending_count _ _ _ _ _ _ _ Hpk H).
  destruct (drain_batch_Return _ _ _ _ _ _ _ H) as [-> ->].
  fold batch good bad. fold batch good bad in Hcount. simpl in Hcount |- *.
  assert (Hlen := rows_with_len env (List.length (posted w)) batch).
  fold good bad in Hlen.
  assert (Hnd : NoDup (map id batch)) by now apply pending_rows_ids_NoDup.
  assert (Hbatch : forall r, In r batch -> In r (db w) /\ is_pending r = true)
    by (intros r; apply pending_rows_In).
  assert (Hgood : forall r, In r good -> In r batch)
    by (intros r; apply rows_with_incl).
  assert (Hbad : forall r, In r bad -> In r batch)
    by (intros r; apply rows_with_incl).
  (* a row of the new table with the id of a delivered row is stamped *)
  assert (Hstamped : forall r r',
             In r good ->
             In r' (update_delivered_at (map id good) now (db w)) ->
             id r' = id r -> r' = set_delivered_at now r).
  { intros r r' Hr Hr' Hid. apply update_delivered_at_In in Hr'.
    destruct Hr' as (x & Hx & ->).
    assert (x = r).
    { apply (primary_key_inj (db w)); auto; [now apply Hbatch, Hgood|].
      rewrite <- Hid. now destruct (mem (id x) (map id good)). }
    subst x.
    assert (Hm : mem (id r) (map id good) = true)
      by (apply mem_In; now apply in_map).
    now rewrite Hm. }
  split; [apply rows_with_partition|].
  do 3 (split; [reflexivity|]).
  split; [lia|].
  split; [intros H2 H1; f_equal; lia|].
  split; [exact Hcount|].
  split.
  - intros r Hr.
    assert (Hin : In r (update_delivered_at (map id good) now (db w))).
    { apply update_delivered_at_In. exists r.
      split; [now apply Hbatch, Hbad|].
      assert (Hm : mem (id r) (map id good) = false).
      { apply mem_not_In. intros Hi.
        apply (rows_with_ids_disjoint env (List.length (posted w)) batch
                 (id r)); auto.
        now apply in_map. }
      now rewrite Hm. }
    destruct (Hbatch r (Hbad r Hr)) as [_ Hp].
    repeat split; auto. intros m Hm. now apply pending_rows_all.
  - intros r Hr. split; [|split].
    + apply update_delivered_at_In. exists r.
      split; [now apply Hbatch, Hgood|].
      assert (Hm : mem (id r) (map id good) = true)
        by (apply mem_In; now apply in_map).
      now rewrite Hm.
    + intros r' Hr' Hid. now rewrite (Hstamped r r' Hr Hr' Hid).
    + intros m Hin. apply in_map_iff in Hin. destruct Hin as (p & Hid & Hp).
      apply pending_rows_In in Hp. destruct Hp as [Hp Hpend].
      rewrite (Hstamped r p Hr Hp Hid) in Hpend. discriminate Hpend.
Qed.

Lemma drain_batch_counts_witness :
  let w := {| db := [row 1 10 None None; row 2 20 None None];
              posted := [] |} in
  let env := up (fun k => if Nat.eqb k 0 then Response 200
                          else Response 500) in
  exists result w',
    drain_batch env settings 40 100 w = (Return result, w')
    /\ result = {| processed := 2; delivered := 1; failed := 1 |}
    /\ db w' = [row 1 10 (Some 40) None; row 2 20 None None]
    /\ pending_rows (db w') 100 = [row 2 20 None None].
Proof.
  intros w env. eexists. eexists. split; [reflexivity|].
  split; [|split; reflexivity].
  apply (drain_batch_counts env settings 40 100 w _ _ eq_refl eq_refl);
    reflexivity.
Defined.

(** ** What the endpoint surfaces *)

Lemma storage_up_spec (env : Env) :
  storage_up env = true <->
  select_fault env = None /\ update_fault env = None
  /\ commit_fault env = None.
Proof.
  unfold storage_up. rewrite !andb_true_iff.
  destruct (select_fault env), (update_fault env), (commit_fault env);
    simpl; intuition congruence.
Qed.

Lemma drain_messages_select_raised (env : Env) (cfg : Settings)
  (now : DateTime) (w : World) (e : PyException) :
  query_pending env (db w) (DRAIN_BATCH_SIZE cfg) = Raise e ->
  drain_messages env cfg now w = (HTTPException 500 (str e), w).
Proof.
  intros Hq. unfold drain_messages, drain_batch. now rewrite Hq.
Qed.

Lemma is_empty_false {A} (l : list A) : l <> [] -> is_empty l = false.
Proof. destruct l; [congruence | reflexivity]. Qed.

Lemma rows_with_nonempty (env : Env) (b : bool) (k : nat)
  (batch : list TempOutbox) :
  rows_with env b k batch <> [] -> batch <> [].
Proof. destruct batch; simpl; congruence. Qed.

Lemma drain_messages_mark_raised (env : Env) (cfg : Settings)
  (now : DateTime) (w : World) (e : PyException) :
  let batch := pending_rows (db w) (DRAIN_BATCH_SIZE cfg) in
  let good := rows_with env true (List.length (posted w)) batch in
  query_pending env (db w) (DRAIN_BATCH_SIZE cfg) = Return batch ->
  good <> [] ->
  mark_delivered env (map id good) now (db w) = Raise e ->
  drain_messages env cfg now w
  = (HTTPException 500 (str e),
     {| db := db w; posted := posted w ++ map (build_request cfg) batch |}).
Proof.
  intros batch good Hq Hne Hm. unfold drain_messages.
  rewrite drain_batch_unfold, Hq. cbv zeta. fold good.
  rewrite (is_empty_false batch) by (eapply rows_with_nonempty; eauto).
  now rewrite (is_empty_false good Hne), Hm.
Qed.

Lemma drain_batch_posts_batch (env : Env) (cfg : Settings) (now : DateTime)
  (n : Z) (w : World) (batch : list TempOutbox) :
  query_pending env (db w) n = Return batch ->
  posted (snd (drain_batch env cfg now n w))
  = posted w ++ map (build_request cfg) batch.
Proof.
  intros Hq. rewrite drain_batch_unfold, Hq. cbv zeta.
  destruct batch as [|r rest]; simpl is_empty; cbv iota.
  - simpl. now rewrite app_nil_r.
  - destruct (is_empty _); [reflexivity|].
    now destruct (mark_delivered _ _ _ _).
Qed.

Lemma drain_messages_storage_up (env : Env) (cfg : Settings)
  (now : DateTime) (w : World) :
  let batch := pending_rows (db w) (DRAIN_BATCH_SIZE cfg) in
  storage_up env = true -> 0 <= DRAIN_BATCH_SIZE cfg ->
  exists body,
    fst (drain_messages env cfg now w) = Json body
    /\ run_success body = true
    /\ run_processed body = len batch
    /\ run_delivered body + run_failed body = len batch.
Proof.
  intros batch Hs Hn. apply storage_up_spec in Hs.
  destruct Hs as (Hsel & Hu & Hc).
  assert (Hlen := rows_with_len env (List.length (posted w)) batch).
  unfold drain_messages. rewrite drain_batch_unfold.
  rewrite (query_pending_up _ _ _ Hsel Hn). cbv zeta. fold batch.
  unfold mark_delivered. rewrite Hu, Hc.
  destruct batch as [|r rest] eqn:Hb; simpl is_empty; cbv iota.
  - eexists. simpl. repeat split.
  - rewrite <- Hb in *.
    destruct (is_empty _); eexists; simpl; repeat split; exact Hlen.
Qed.

Lemma drain_messages_error (env : Env) (cfg : Settings) (now : DateTime)
  (w : World) (code : Z) (detail : string) :
  fst (drain_messages env cfg now w) = HTTPException code detail ->
  code = 500
  /\ db (snd (drain_messages env cfg now w)) = db w
  /\ exists e, detail = str e
               /\ (query_pending env (db w) (DRAIN_BATCH_SIZE cfg) = Raise e
                   \/ update_fault env = Some e
                   \/ commit_fault env = Some e).
Proof.
  unfold drain_messages.
  destruct (drain_batch_Cycle env cfg now (DRAIN_BATCH_SIZE cfg) w)
    as [e0 Hq|Hq|batch0 Hq Hne Hg|batch0 e0 Hq Hne Hm|batch0 Hq Hne Hu Hcm];
    simpl; try discriminate; intros [= <- <-];
    (split; [reflexivity|]); (split; [reflexivity|]); exists e0;
    (split; [reflexivity|]).
  - now left.
  - right. apply mark_delivered_Raise in Hm. tauto.
Qed.

(** C6. At the trigger endpoint: an exception of the SELECT gives a 500
    carrying its message and leaves the world as it was; an exception of
    the UPDATE or of the commit gives a 500 carrying its message and leaves
    the table as it was; whenever the SELECT returned, every row of the
    batch was posted, in order, whatever the posts came back with; with the
    store up the response is a success whatever the posts came back with;
    and an error response always comes from the SELECT, the UPDATE or the
    commit, with the table unchanged. *)
Theorem drain_messages_surfaces_storage_faults_only (env : Env)
  (cfg : Settings) (now : DateTime) (w : World) :
  let n := DRAIN_BATCH_SIZE cfg in
  let batch := pending_rows (db w) n in
  let good := rows_with env true (List.length (posted w)) batch in
  let resp := fst (drain_messages env cfg now w) in
  let w' := snd (drain_messages env cfg now w) in
  (forall e, query_pending env (db w) n = Raise e ->
     resp = HTTPException 500 (str e) /\ w' = w)
  /\ (forall e, query_pending env (db w) n = Return batch ->
        good <> [] ->
        mark_delivered env (map id good) now (db w) = Raise e ->
        resp = HTTPException 500 (str e) /\ db w' = db w)
  /\ (query_pending env (db w) n = Return batch ->
        posted w' = posted w ++ map (build_request cfg) batch)
  /\ (storage_up env = true -> 0 <= n ->
        exists body, resp = Json body
                     /\ run_success body = true
                     /\ run_processed body = len batch
                     /\ run_delivered body + run_failed body = len batch)
  /\ (forall code detail, resp = HTTPException code detail ->
        code = 500 /\ db w' = db w
        /\ exists e, detail = str e
                     /\ (query_pending env (db w) n = Raise e
                         \/ update_fault env = Some e
                         \/ commit_fault env = Some e)).
Proof.
  intros n batch good resp w'. subst n batch good resp w'.
  split; [|split; [|split; [|split]]].
  - intros e Hq. now rewrite (drain_messages_select_raised _ _ now _ _ Hq).
  - intros e Hq Hne Hm.
    now rewrite (drain_messages_mark_raised _ _ _ _ _ Hq Hne Hm).
  - intros Hq. rewrite drain_messages_world.
    now apply drain_batch_posts_batch.
  - apply drain_messages_storage_up.
  - apply drain_messages_error.
Qed.

Lemma drain_messages_surfaces_storage_faults_only_witness :
  let w := {| db := [row 1 10 None None; row 2 20 None None];
              posted := [] |} in
  fst (drain_messages commit_down settings 40 w)
  = HTTPException 500 "MySQL server has gone away"
  /\ db (snd (drain_messages commit_down settings 40 w)) = db w.
Proof.
  intros w.
  apply (proj1 (proj2 (drain_messages_surfaces_storage_faults_only
                         commit_down settings 40 w))
           (OperationalError "MySQL server has gone away"));
    [reflexivity | discriminate | reflexivity].
Defined.

(** ** Cycles in which every delivery succeeds *)

Lemma all_delivered_verdict (env : Env) (k : nat) :
  all_delivered env -> verdict env k = true.
Proof. intros [_ H]. unfold verdict. now rewrite H. Qed.

Lemma rows_with_all_true (env : Env) (k : nat) (batch : list TempOutbox) :
  all_delivered env ->
  rows_with env true k batch = batch /\ rows_with env false k batch = [].
Proof.
  intros H. revert k. induction batch as [|r rest IH]; intros k; simpl;
    [auto|].
  rewrite (all_delivered_verdict env k H). simpl.
  destruct (IH (S k)) as [-> ->]. auto.
Qed.

Lemma drain_batch_returns (env : Env) (cfg : Settings) (now : DateTime)
  (n : Z) (w : World) :
  storage_up env = true -> 0 <= n ->
  exists result w', drain_batch env cfg now n w = (Return result, w').
Proof.
  intros Hs Hn. apply storage_up_spec in Hs. destruct Hs as (Hsel & Hu & Hc).
  rewrite drain_batch_unfold, (query_pending_up _ _ _ Hsel Hn). cbv zeta.
  unfold mark_delivered. rewrite Hu, Hc.
  destruct (is_empty (pending_rows (db w) n)); [eauto|].
  destruct (is_empty _); eauto.
Qed.

(** A cycle in which every delivery succeeds processes and delivers the
    batch size, or all the pending rows when fewer, and the pending count
    drops by as much. *)
Lemma drain_batch_all_delivered (env : Env) (cfg : Settings) (now : DateTime)
  (n : Z) (w : World) :
  primary_key (db w) = true -> all_delivered env -> 0 <= n ->
  let m := Z.min n (count_pending (db w)) in
  exists w',
    drain_batch env cfg now n w
    = (Return {| processed := m; delivered := m; failed := 0 |}, w')
    /\ count_pending (db w') = count_pending (db w) - m
    /\ primary_key (db w') = true.
Proof.
  intros Hpk Hall Hn m.
  destruct (drain_batch_returns env cfg now n w (proj1 Hall) Hn)
    as (result & w' & Hrun).
  exists w'.
  assert (Hcount := drain_batch_pending_count _ _ _ _ _ _ _ Hpk Hrun).
  destruct (drain_batch_Return _ _ _ _ _ _ _ Hrun) as [Hres _].
  destruct (rows_with_all_true env (List.length (posted w))
              (pending_rows (db w) n) Hall) as [Hgood Hbad].
  rewrite Hgood, Hbad, (pending_rows_len _ _ Hn) in Hres. fold m in Hres.
  subst result. simpl in Hcount.
  split; [|split].
  - exact Hrun.
  - exact Hcount.
  - replace w' with (snd (drain_batch env cfg now n w)) by now rewrite Hrun.
    now apply drain_batch_primary_key.
Qed.

(** C8. From a table with 150 pending rows, with batch size 100 and every
    delivery succeeding: the first cycle returns 100, 100, 0 and leaves 50
    pending; the second returns 50, 50, 0 and leaves none; the third returns
    zeros and leaves the world as it is. *)
Theorem drain_150_in_three_cycles (env1 env2 env3 : Env) (cfg : Settings)
  (now1 now2 now3 : DateTime) (w0 : World) :
  primary_key (db w0) = true ->
  count_pending (db w0) = 150 ->
  all_delivered env1 -> all_delivered env2 -> select_fault env3 = None ->
  exists w1 w2,
    drain_batch env1 cfg now1 100 w0
    = (Return {| processed := 100; delivered := 100; failed := 0 |}, w1)
    /\ count_pending (db w1) = 50
    /\ drain_batch env2 cfg now2 100 w1
       = (Return {| processed := 50; delivered := 50; failed := 0 |}, w2)
    /\ count_pending (db w2) = 0
    /\ drain_batch env3 cfg now3 100 w2
       = (Return {| processed := 0; delivered := 0; failed := 0 |}, w2).
Proof.
  intros Hpk H150 Hall1 Hall2 Hsel3.
  destruct (drain_batch_all_delivered env1 cfg now1 100 w0 Hpk Hall1
              ltac:(lia)) as (w1 & Hrun1 & Hcount1 & Hpk1).
  rewrite H150 in Hrun1, Hcount1. change (Z.min 100 150) with 100 in *.
  destruct (drain_batch_all_delivered env2 cfg now2 100 w1 Hpk1 Hall2
              ltac:(lia)) as (w2 & Hrun2 & Hcount2 & Hpk2).
  assert (H50 : count_pending (db w1) = 50) by lia.
  rewrite H50 in Hrun2, Hcount2. change (Z.min 100 50) with 50 in *.
  assert (H0 : count_pending (db w2) = 0) by lia.
  exists w1, w2. repeat split; auto.
  apply drain_batch_zero; auto; lia.
Qed.

Lemma drain_150_in_three_cycles_witness :
  exists w1 w2,
    drain_batch (up always_200) settings 1000 100
      {| db := backlog_150; posted := [] |}
    = (Return {| processed := 100; delivered := 100; failed := 0 |}, w1)
    /\ count_pending (db w1) = 50
    /\ drain_batch (up always_200) settings 1005 100 w1
       = (Return {| processed := 50; delivered := 50; failed := 0 |}, w2)
    /\ count_pending (db w2) = 0
    /\ drain_batch (up always_200) settings 1010 100 w2
       = (Return {| processed := 0; delivered := 0; failed := 0 |}, w2).
Proof.
  apply (drain_150_in_three_cycles (up always_200) (up always_200)
           (up always_200) settings 1000 1005 1010
           {| db := backlog_150; posted := [] |});
    try (vm_compute; reflexivity);
    (split; [reflexivity | intros k; reflexivity]).
Defined.

(** * Further properties of the drain service *)

(** ** A stamp has its 200 *)

Lemma rows_with_true_nth (env : Env) (batch : list TempOutbox) :
  forall (k : nat) (r : TempOutbox),
    In r (rows_with env true k batch) ->
    exists j, nth_error batch j = Some r
              /\ primary env (k + j) = Response 200.
Proof.
  induction batch as [|x rest IH]; intros k r; simpl; [tauto|].
  destruct (verdict env k) eqn:Hv; simpl.
  - intros [<-|Hin].
    + exists 0%nat. split; [reflexivity|]. rewrite Nat.add_0_r.
      unfold verdict in Hv. destruct (primary env k) as [code|e];
        [|discriminate]. apply Z.eqb_eq in Hv. now subst.
    + destruct (IH (S k) r Hin) as (j & Hj & Hp). exists (S j).
      split; [exact Hj|]. now rewrite Nat.add_succ_r.
  - intros Hin. destruct (IH (S k) r Hin) as (j & Hj & Hp). exists (S j).
    split; [exact Hj|]. now rewrite Nat.add_succ_r.
Qed.

(** X1. Over a table with its primary key, a row that a cycle changed was
    pending, was in the batch, was posted in its turn with its own fields,
    got status 200 for that post, and differs from what it was only by
    [delivered_at], now the timestamp of the cycle. No row is stamped
    without a post of it answered 200. *)
Theorem stamp_only_after_200 (env : Env) (cfg : Settings) (now : DateTime)
  (n : Z) (w : World) (i : nat) (r r' : TempOutbox) :
  primary_key (db w) = true ->
  nth_error (db w) i = Some r ->
  nth_error (db (snd (drain_batch env cfg now n w))) i = Some r' ->
  r' <> r ->
  is_pending r = true
  /\ r' = set_delivered_at now r
  /\ exists j,
       nth_error (pending_rows (db w) n) j = Some r
       /\ primary env (List.length (posted w) + j) = Response 200
       /\ nth_error (posted (snd (drain_batch env cfg now n w)))
            (List.length (posted w) + j)
          = Some (build_request cfg r).
Proof.
  intros Hpk Hi Hi' Hne.
  destruct (drain_batch_Cycle env cfg now n w)
    as [e Hq|Hq|batch Hq Hb Hg|batch e Hq Hg Hm|batch Hq Hg Hu Hc];
    simpl in *; try congruence.
  apply query_pending_Return in Hq. destruct Hq as (_ & _ & ->).
  rewrite (update_delivered_at_nth _ _ _ _ _ Hi) in Hi'.
  destruct (mem (id r) _) eqn:Hmem; [|congruence].
  injection Hi' as <-.
  apply mem_In, in_map_iff in Hmem. destruct Hmem as (g & Hid & Hgood).
  assert (Hgb := rows_with_incl _ _ _ _ _ Hgood).
  apply pending_rows_In in Hgb. destruct Hgb as [Hgt Hgp].
  assert (g = r)
    by (eapply primary_key_inj; eauto; eapply nth_error_In; eauto).
  subst g. split; [exact Hgp|]. split; [reflexivity|].
  destruct (rows_with_true_nth _ _ _ _ Hgood) as (j & Hj & Hp).
  exists j. split; [exact Hj|]. split; [exact Hp|].
  rewrite nth_error_app2 by lia.
  replace (List.length (posted w) + j - List.length (posted w))%nat
    with j by lia.
  rewrite nth_error_map, Hj. reflexivity.
Qed.

Lemma stamp_only_after_200_witness :
  let w := {| db := [row 1 10 None None; row 2 20 None None];
              posted := [] |} in
  let env := up (fun k => if Nat.eqb k 1 then Response 200
                          else Response 503) in
  nth_error (db (snd (drain_batch env settings 40 100 w))) 1
  = Some (row 2 20 (Some 40) None)
  /\ primary env 1 = Response 200.
Proof.
  intros w env. split; [reflexivity|].
  destruct (stamp_only_after_200 env settings 40 100 w 1
              (row 2 20 None None) (row 2 20 (Some 40) None)
              eq_refl eq_refl eq_refl ltac:(discriminate))
    as (_ & _ & j & Hj & Hp & _).
  destruct j as [|[|j]]; simpl in Hj; try discriminate Hj.
  - exact Hp.
  - destruct j; discriminate Hj.
Defined.

(** ** The posts of a cycle *)

Lemma batch_of_pending_rows (env : Env) (t : Table) (n : Z) :
  batch_of env t n = [] \/ batch_of env t n = pending_rows t n /\ 0 <= n.
Proof.
  unfold batch_of. destruct (query_pending env t n) as [batch|e] eqn:Hq;
    [|now left].
  apply query_pending_Return in Hq. destruct Hq as (_ & Hn & ->). now right.
Qed.

Lemma drain_batch_posted (env : Env) (cfg : Settings) (now : DateTime)
  (n : Z) (w : World) :
  posted (snd (drain_batch env cfg now n w))
  = posted w ++ map (build_request cfg) (batch_of env (db w) n).
Proof.
  unfold batch_of.
  destruct (query_pending env (db w) n) as [batch|e] eqn:Hq.
  - now apply drain_batch_posts_batch.
  - unfold drain_batch. rewrite Hq. simpl. now rewrite app_nil_r.
Qed.

(** X2. The posts a cycle makes are those of its batch, in the order of the
    batch, one per row: the rows of the batch are rows of the table that are
    neither delivered nor tombstoned, carry pairwise different ids under the
    primary key, come oldest first, and are at most the batch size and at
    most the pending rows. Nothing else is posted. *)
Theorem posts_of_a_cycle (env : Env) (cfg : Settings) (now : DateTime)
  (n : Z) (w : World) :
  let batch := batch_of env (db w) n in
  posted (snd (drain_batch env cfg now n w))
  = posted w ++ map (build_request cfg) batch
  /\ (forall r, In r batch ->
        In r (db w) /\ delivered_at r = None /\ deleted_at r = None)
  /\ StronglySorted (fun r x => queued_at r <= queued_at x) batch
  /\ len batch <= Z.max 0 n
  /\ len batch <= count_pending (db w)
  /\ (primary_key (db w) = true -> NoDup (map id batch)).
Proof.
  intros batch. split; [apply drain_batch_posted|].
  destruct (batch_of_pending_rows env (db w) n) as [Hb|[Hb Hn]];
    fold batch in Hb; rewrite Hb.
  - split; [|split; [|split; [|split]]].
    + intros r [].
    + constructor.
    + unfold len. simpl. lia.
    + unfold count_pending, len. simpl. lia.
    + intros _. constructor.
  - split; [|split; [|split; [|split]]].
    + intros r Hr. apply pending_rows_In in Hr. destruct Hr as [Hr Hp].
      apply is_pending_spec in Hp. tauto.
    + apply sorted_firstn, order_by_queued_at_sorted.
    + rewrite (pending_rows_len _ _ Hn). lia.
    + rewrite (pending_rows_len _ _ Hn). lia.
    + intros Hpk. now apply pending_rows_ids_NoDup.
Qed.

Lemma posts_of_a_cycle_witness :
  let w := {| db := mixed_table; posted := [] |} in
  posted (snd (drain_batch (up always_200) settings 40 2 w))
  = [build_request settings (row 2 10 None None);
     build_request settings (row 5 20 None None)]
  /\ NoDup (map id (batch_of (up always_200) (db w) 2)).
Proof.
  intros w.
  destruct (posts_of_a_cycle (up always_200) settings 40 2 w)
    as (Hp & _ & _ & _ & _ & Hnd).
  split; [rewrite Hp; reflexivity | apply Hnd; reflexivity].
Defined.

(** ** Failed rows come back *)

Section OrderByFilter.
Context {A : Type} (leb : A -> A -> bool) (keep : A -> bool).
Hypothesis leb_total : forall a b, leb a b = true \/ leb b a = true.
Hypothesis leb_trans :
  forall a b c, leb a b = true -> leb b c = true -> leb a c = true.

(** Inserting into a sorted list, then dropping the rows not kept, is
    dropping them first and inserting the row if it is kept. *)
Lemma filter_insert_by (r : A) (l : list A) :
  StronglySorted (fun a b => leb a b = true) l ->
  filter keep (insert_by leb r l)
  = if keep r then insert_by leb r (filter keep l) else filter keep l.
Proof.
  induction 1 as [|x t Ht IH Hx]; simpl.
  - now destruct (keep r).
  - destruct (leb r x) eqn:E; simpl.
    + destruct (keep r) eqn:Kr; [|reflexivity].
      destruct (keep x) eqn:Kx; simpl; [now rewrite E|].
      destruct (filter keep t) as [|y u] eqn:Hf; simpl; [reflexivity|].
      assert (Hy : In y t).
      { assert (In y (filter keep t)) by (rewrite Hf; now left).
        now apply filter_In in H. }
      rewrite Forall_forall in Hx.
      now rewrite (leb_trans r x y E (Hx y Hy)).
    + rewrite IH. destruct (keep x) eqn:Kx; simpl.
      * destruct (keep r); simpl; [now rewrite E | reflexivity].
      * reflexivity.
Qed.

Lemma sort_by_filter (l : list A) :
  sort_by leb (filter keep l) = filter keep (sort_by leb l).
Proof.
  induction l as [|x t IH]; simpl; [reflexivity|].
  rewrite filter_insert_by by now apply sort_by_sorted.
  destruct (keep x); simpl; now rewrite IH.
Qed.

Lemma firstn_S_In (n : nat) (l : list A) (x : A) :
  In x (firstn n l) -> In x (firstn (S n) l).
Proof.
  revert n. induction l as [|y t IH]; intros [|n]; simpl; try tauto.
  intros [->|Hin]; [now left | right; now apply IH].
Qed.

Lemma firstn_filter_In (n : nat) (l : list A) (x : A) :
  In x (firstn n l) -> keep x = true -> In x (firstn n (filter keep l)).
Proof.
  revert n. induction l as [|y t IH]; intros [|n]; simpl; try tauto.
  intros [->|Hin] Hk.
  - rewrite Hk. now left.
  - destruct (keep y).
    + right. now apply IH.
    + now apply firstn_S_In, IH.
Qed.
End OrderByFilter.

Lemma filter_pending_update (ids : list Z) (now : DateTime) (t : Table) :
  filter is_pending (update_delivered_at ids now t)
  = filter (fun r => negb (mem (id r) ids)) (filter is_pending t).
Proof.
  unfold update_delivered_at.
  induction t as [|r t IH]; simpl; [reflexivity|].
  destruct (mem (id r) ids) eqn:E; simpl.
  - rewrite IH. destruct (is_pending r); simpl; [now rewrite E | reflexivity].
  - destruct (is_pending r); simpl; [rewrite E; simpl|]; now rewrite IH.
Qed.

(** The batch after an update: the first rows of the former order with the
    listed rows taken out. *)
Lemma pending_rows_update (ids : list Z) (now : DateTime) (t : Table) (n : Z) :
  pending_rows (update_delivered_at ids now t) n
  = firstn (Z.to_nat n)
      (filter (fun r => negb (mem (id r) ids))
         (order_by_queued_at (filter is_pending t))).
Proof.
  unfold pending_rows. rewrite filter_pending_update. f_equal.
  apply sort_by_filter.
  - apply queued_at_asc_total.
  - apply queued_at_asc_trans.
Qed.

(** ** What the engine may answer *)

(** The order the model gives to the pending rows is one the engine may
    give. *)
Lemma answers_query_pending_rows (t : Table) (n : Z) :
  answers_query t n (pending_rows t n).
Proof.
  exists (order_by_queued_at (filter is_pending t)).
  split; [apply order_by_queued_at_perm|].
  split; [apply order_by_queued_at_sorted | reflexivity].
Qed.

Lemma sorted_on_distinct_queued_at (l : list TempOutbox) :
  NoDup (map queued_at l) ->
  StronglySorted (fun r x => queued_at r <= queued_at x) l ->
  StronglySorted (fun r x => queued_at r < queued_at x) l.
Proof.
  intros Hnd. apply sorted_strengthen.
  - intros a b Ha Hb Hle Hne.
    assert (queued_at a <> queued_at b)
      by (intros E; apply Hne; now apply (NoDup_map_inj queued_at l)).
    lia.
  - now apply NoDup_map_NoDup in Hnd.
Qed.

(** When no two pending rows were queued at the same time, the query has
    one answer, the one of the model. *)
Lemma answers_query_unique (t : Table) (n : Z) (rows : list TempOutbox) :
  distinct (map queued_at (filter is_pending t)) = true ->
  answers_query t n rows -> rows = pending_rows t n.
Proof.
  rewrite distinct_NoDup. intros Hnd (order & Hp & Hs & ->).
  unfold pending_rows. f_equal.
  apply (sorted_perm_unique (fun r x => queued_at r < queued_at x)).
  - intros a b. lia.
  - apply sorted_on_distinct_queued_at; [|exact Hs].
    apply (Permutation_NoDup
             (Permutation_map queued_at (Permutation_sym Hp)) Hnd).
  - apply sorted_on_distinct_queued_at;
      [|apply order_by_queued_at_sorted].
    apply (Permutation_NoDup
             (Permutation_map queued_at
                (Permutation_sym (order_by_queued_at_perm _))) Hnd).
  - apply (Permutation_trans Hp).
    apply Permutation_sym, order_by_queued_at_perm.
Qed.

(** Marking rows delivered leaves the pending rows queued at distinct
    times. *)
Lemma update_keeps_queued_at_distinct (ids : list Z) (now : DateTime)
  (t : Table) :
  distinct (map queued_at (filter is_pending t)) = true ->
  distinct (map queued_at (filter is_pending (update_delivered_at ids now t)))
  = true.
Proof.
  rewrite !distinct_NoDup, filter_pending_update.
  apply filter_keeps_keys_distinct.
Qed.

(** When rows are queued at the same time, the engine may answer the next
    query with other rows than the failed ones: of four rows queued at one
    tick, a batch of two may be rows 4 and 3, whatever became of rows 1
    and 2. *)
Lemma tied_rows_may_stay_behind :
  let t := [row 1 5 None None; row 2 5 None None;
            row 3 5 None None; row 4 5 None None] in
  pending_rows t 2 = [row 1 5 None None; row 2 5 None None]
  /\ answers_query t 2 [row 4 5 None None; row 3 5 None None].
Proof.
  intros t. split; [reflexivity|].
  exists [row 4 5 None None; row 3 5 None None;
          row 2 5 None None; row 1 5 None None].
  split; [|split; [|reflexivity]].
  - change (Permutation (rev t) t). apply Permutation_sym, Permutation_rev.
  - repeat (constructor; [|repeat constructor; simpl; lia]). constructor.
Qed.

(** X3. Over a table with its primary key whose pending rows were queued at
    pairwise distinct times, after a cycle that returns, whatever the engine
    answers to the query of the same size is the former order of the pending
    rows with the delivered ones taken out: every row whose delivery failed
    is in the next batch, and when nothing was delivered the table is
    unchanged and the next batch is the same batch, so that rows behind it
    are not attempted. The batch of the cycle itself is the only answer the
    engine could give. (Rows queued at the same time are left to the engine
    at each query, and a failed row among them may stay behind.) *)
Theorem failed_rows_come_back (env : Env) (cfg : Settings) (now : DateTime)
  (n : Z) (w w' : World) (result : DrainResult) :
  primary_key (db w) = true ->
  distinct (map queued_at (filter is_pending (db w))) = true ->
  drain_batch env cfg now n w = (Return result, w') ->
  let batch := pending_rows (db w) n in
  let good := rows_with env true (List.length (posted w)) batch in
  let bad := rows_with env false (List.length (posted w)) batch in
  (forall first, answers_query (db w) n first -> first = batch)
  /\ forall next,
       answers_query (db w') n next ->
       next
       = firstn (Z.to_nat n)
           (filter (fun r => negb (mem (id r) (map id good)))
              (order_by_queued_at (filter is_pending (db w))))
       /\ (forall r, In r bad -> In r next)
       /\ (delivered result = 0 -> db w' = db w /\ next = batch).
Proof.
  intros Hpk Hdq H batch good bad.
  split; [intros first Hfirst; now apply answers_query_unique|].
  intros next Hnext.
  destruct (drain_batch_Return _ _ _ _ _ _ _ H) as [-> ->].
  fold batch good bad in Hnext |- *. simpl in Hnext |- *.
  apply answers_query_unique in Hnext;
    [|now apply update_keeps_queued_at_distinct].
  subst next.
  split; [apply pending_rows_update|]. split.
  - intros r Hr. rewrite pending_rows_update.
    apply firstn_filter_In;
      [change (In r batch); eapply rows_with_incl; exact Hr|].
    apply negb_true_iff, mem_not_In. intros Hin.
    apply (rows_with_ids_disjoint env (List.length (posted w)) batch (id r));
      auto.
    + now apply pending_rows_ids_NoDup.
    + now apply in_map.
  - intros H0. assert (Hg : good = []).
    { destruct good; [reflexivity|]. unfold len in H0. simpl in H0. lia. }
    rewrite Hg. simpl. now rewrite update_delivered_at_nil.
Qed.

Lemma failed_rows_come_back_witness :
  let w := {| db := mixed_table; posted := [] |} in
  let env := up (fun k => if Nat.eqb k 0 then Response 200
                          else Throws (TimeoutException "timed out")) in
  exists result w',
    drain_batch env settings 40 2 w = (Return result, w')
    /\ failed result = 1
    /\ In (row 5 20 None None) (pending_rows (db w') 2).
Proof.
  intros w env. eexists. eexists. split; [reflexivity|].
  split; [reflexivity|].
  apply (proj2 (failed_rows_come_back env settings 40 2 w _ _
                  eq_refl eq_refl eq_refl)
           _ (answers_query_pending_rows _ 2)).
  simpl. now left.
Defined.

(** ** Runs of operations *)

(** The table after an operation is the table before, or an update of it. *)
Lemma step_db (w : World) (o : Op) :
  db (step w o) = db w
  \/ exists ids now, db (step w o) = update_delivered_at ids now (db w).
Proof.
  destruct o as [env cfg now|env cfg]; simpl.
  - rewrite drain_messages_world.
    destruct (drain_batch_Cycle env cfg now (DRAIN_BATCH_SIZE cfg) w);
      simpl; eauto.
  - unfold drain_status. destruct (count_fault env); now left.
Qed.

Lemma step_posted (w : World) (o : Op) :
  exists more, posted (step w o) = posted w ++ more.
Proof.
  destruct o as [env cfg now|env cfg]; simpl.
  - rewrite drain_messages_world, drain_batch_posted. eauto.
  - exists []. rewrite app_nil_r. unfold drain_status.
    now destruct (count_fault env).
Qed.

Lemma same_but_delivered_at_trans (t1 t2 t3 : Table) :
  same_but_delivered_at t1 t2 -> same_but_delivered_at t2 t3 ->
  same_but_delivered_at t1 t3.
Proof.
  unfold same_but_delivered_at. intros H12 H23.
  decompose [and] H12. decompose [and] H23. repeat split; congruence.
Qed.

Lemma count_pending_update_le (ids : list Z) (now : DateTime) (t : Table) :
  count_pending (update_delivered_at ids now t) <= count_pending t.
Proof.
  rewrite count_pending_update. unfold count_pending, len.
  rewrite filter_andb.
  pose proof (filter_length_le (fun r => negb (mem (id r) ids))
                (filter is_pending t)). lia.
Qed.

Lemma update_pending_unchanged (ids : list Z) (now : DateTime) (t : Table)
  (i : nat) (r' : TempOutbox) :
  nth_error (update_delivered_at ids now t) i = Some r' ->
  is_pending r' = true -> nth_error t i = Some r'.
Proof.
  unfold update_delivered_at. rewrite nth_error_map.
  destruct (nth_error t i) as [r|]; simpl; [|discriminate].
  destruct (mem (id r) ids); intros [= <-]; [discriminate | reflexivity].
Qed.

(** X4. Whatever operations are run, in whatever environments: the table
    keeps its rows, position by position, up to [delivered_at]; the pending
    count never grows; a row that is pending at the end is, untouched, the
    row that was there at the start; and the posts made are only added to. *)
Theorem runs_only_stamp (ops : list Op) (w : World) :
  same_but_delivered_at (db w) (db (run_ops ops w))
  /\ count_pending (db (run_ops ops w)) <= count_pending (db w)
  /\ (forall i r', nth_error (db (run_ops ops w)) i = Some r' ->
        is_pending r' = true -> nth_error (db w) i = Some r')
  /\ exists more, posted (run_ops ops w) = posted w ++ more.
Proof.
  revert w. induction ops as [|o ops IH]; intros w; simpl.
  - split; [apply same_but_delivered_at_refl|]. split; [lia|].
    split; [auto|]. exists []. now rewrite app_nil_r.
  - destruct (IH (step w o)) as (Hf & Hc & Hp & more & Hm).
    destruct (step_posted w o) as (more0 & Hm0).
    assert (Hstep : same_but_delivered_at (db w) (db (step w o))
                    /\ count_pending (db (step w o)) <= count_pending (db w)
                    /\ forall i r', nth_error (db (step w o)) i = Some r' ->
                         is_pending r' = true ->
                         nth_error (db w) i = Some r').
    { destruct (step_db w o) as [->|(ids & now & ->)].
      - split; [apply same_but_delivered_at_refl|]. split; [lia | auto].
      - split; [apply update_delivered_at_frame|].
        split; [apply count_pending_update_le|].
        intros i r'. apply update_pending_unchanged. }
    destruct Hstep as (Hf0 & Hc0 & Hp0).
    split; [eapply same_but_delivered_at_trans; eauto|].
    split; [lia|]. split; [auto|].
    exists (more0 ++ more). now rewrite Hm, Hm0, app_assoc.
Qed.

(** ** Draining a backlog *)

Lemma count_pending_nonneg (t : Table) : 0 <= count_pending t.
Proof. unfold count_pending, len. lia. Qed.

(** X5. Over a table with its primary key, triggers of batch size [n] whose
    deliveries all succeed take [n] rows each off the backlog until it is
    empty: after [k] of them the pending count is [max 0 (p - k * n)], and
    it is 0 as soon as [k * n] reaches the backlog [p]. *)
Theorem delivering_runs_drain (ops : list Op) (w : World) (n : Z) :
  primary_key (db w) = true -> 0 <= n ->
  Forall (delivering_run n) ops ->
  count_pending (db (run_ops ops w))
  = Z.max 0 (count_pending (db w) - len ops * n)
  /\ (count_pending (db w) <= len ops * n ->
      count_pending (db (run_ops ops w)) = 0).
Proof.
  intros Hpk Hn Hops.
  assert (Hmain : count_pending (db (run_ops ops w))
                  = Z.max 0 (count_pending (db w) - len ops * n));
    [|split; [exact Hmain | lia]].
  revert w Hpk. induction Hops as [|o ops Ho Hops IH]; intros w Hpk.
  - pose proof (count_pending_nonneg (db w)). unfold len. simpl. lia.
  - destruct o as [env cfg now|env cfg]; [|contradiction].
    destruct Ho as [Hall Hsize].
    change (run_ops (Run env cfg now :: ops) w)
      with (run_ops ops (snd (drain_messages env cfg now w))).
    rewrite drain_messages_world, Hsize.
    destruct (drain_batch_all_delivered env cfg now n w Hpk Hall Hn)
      as (w' & Hrun & Hcount & Hpk').
    rewrite Hrun. cbn [snd]. rewrite (IH w' Hpk'), Hcount.
    pose proof (count_pending_nonneg (db w)) as Hp.
    assert (Hk : 0 <= len ops * n) by (unfold len; nia).
    replace (len (Run env cfg now :: ops) * n) with (len ops * n + n)
      by (unfold len; simpl List.length; nia).
    lia.
Qed.

Lemma delivering_runs_drain_witness :
  let w := {| db := backlog_150; posted := [] |} in
  let ops := [Run (up always_200) settings 1000;
              Run (up always_200) settings 1005] in
  count_pending (db (run_ops ops w)) = 0.
Proof.
  intros w ops.
  apply (proj2 (delivering_runs_drain ops w 100 eq_refl ltac:(lia)
                  ltac:(repeat constructor))).
  vm_compute. discriminate.
Defined.

(** ** The status endpoint and the trigger *)

(** X6. The status endpoint changes nothing, and what it reports tells what
    a trigger does next when the store is up: the trigger processes
    [min(batch_size, pending_messages)] rows, of which it delivers some and
    fails the others, and over a table with its primary key the next status
    reports [pending_messages] less the rows delivered. *)
Theorem status_predicts_run (env_s env_r : Env) (cfg : Settings)
  (now : DateTime) (w : World) (body : StatusBody) :
  fst (drain_status env_s cfg w) = Json body ->
  storage_up env_r = true -> 0 <= DRAIN_BATCH_SIZE cfg ->
  primary_key (db w) = true ->
  snd (drain_status env_s cfg w) = w
  /\ exists run,
       fst (drain_messages env_r cfg now w) = Json run
       /\ run_processed run
          = Z.min (batch_size body) (pending_messages body)
       /\ 0 <= run_delivered run /\ 0 <= run_failed run
       /\ run_delivered run + run_failed run = run_processed run
       /\ forall env_s', count_fault env_s' = None ->
            exists body',
              fst (drain_status env_s' cfg
                     (snd (drain_messages env_r cfg now w))) = Json body'
              /\ pending_messages body'
                 = pending_messages body - run_delivered run.
Proof.
  unfold drain_status. intros Hs Hup Hn Hpk.
  destruct (count_fault env_s); [discriminate|]. simpl in Hs.
  injection Hs as <-. split; [reflexivity|]. simpl.
  destruct (drain_batch_returns env_r cfg now (DRAIN_BATCH_SIZE cfg) w Hup Hn)
    as (result & w' & Hrun).
  assert (Hcount := drain_batch_pending_count _ _ _ _ _ _ _ Hpk Hrun).
  destruct (drain_batch_Return _ _ _ _ _ _ _ Hrun) as [Hres _].
  pose proof (rows_with_len env_r (List.length (posted w))
                (pending_rows (db w) (DRAIN_BATCH_SIZE cfg))) as Hlen.
  unfold drain_messages. rewrite Hrun. simpl.
  eexists. split; [reflexivity|]. simpl. subst result. simpl in *.
  split; [now apply pending_rows_len|].
  split; [unfold len; lia|]. split; [unfold len; lia|].
  split; [exact Hlen|].
  intros env_s' Hc. rewrite Hc. eexists. split; [reflexivity|]. exact Hcount.
Qed.

Lemma status_predicts_run_witness :
  let w := {| db := backlog_150; posted := [] |} in
  exists run,
    fst (drain_messages (up always_200) settings 1000 w) = Json run
    /\ run_processed run = 100.
Proof.
  intros w.
  destruct (status_predicts_run (up always_200) (up always_200) settings
              1000 w _ eq_refl eq_refl ltac:(vm_compute; discriminate)
              eq_refl) as (_ & run & Hrun & Hp & _).
  exists run. split; [exact Hrun|]. rewrite Hp. reflexivity.
Defined.

(** ** A mark that fails *)

(** X7. When the store answers the query and the cycle then raises, the
    exception is the one of the UPDATE or of the commit: at least one post
    had been answered 200, every row of the batch had been posted, and the
    table is as it was. When no two pending rows were queued at the same
    time, the next query of the same size can only give that batch again,
    and the next cycle, once the store answers its query, posts every row
    of it a second time. *)
Theorem lost_mark_posts_again (env env' : Env) (cfg : Settings)
  (now now' : DateTime) (n : Z) (w : World) (e : PyException) :
  select_fault env = None -> 0 <= n ->
  fst (drain_batch env cfg now n w) = Raise e ->
  select_fault env' = None ->
  let w1 := snd (drain_batch env cfg now n w) in
  let w2 := snd (drain_batch env' cfg now' n w1) in
  let posts := map (build_request cfg) (pending_rows (db w) n) in
  (update_fault env = Some e
   \/ update_fault env = None /\ commit_fault env = Some e)
  /\ db w1 = db w
  /\ posted w1 = posted w ++ posts
  /\ (exists j, (j < List.length posts)%nat
                /\ primary env (List.length (posted w) + j) = Response 200)
  /\ (distinct (map queued_at (filter is_pending (db w))) = true ->
      (forall next,
         answers_query (db w1) n next -> next = pending_rows (db w) n)
      /\ posted w2 = (posted w ++ posts) ++ posts).
Proof.
  intros Hsel Hn Hraise Hsel' w1 w2 posts. subst w1 w2 posts.
  assert (Hb : forall env0 t, select_fault env0 = None ->
                 batch_of env0 t n = pending_rows t n).
  { intros env0 t H0. unfold batch_of.
    now rewrite (query_pending_up _ _ _ H0 Hn). }
  rewrite !drain_batch_posted.
  destruct (drain_batch_Cycle env cfg now n w)
    as [e0 Hq|Hq|batch Hq Hne Hg|batch e0 Hq Hg Hm|batch Hq Hg Hu Hc];
    simpl in Hraise |- *; try discriminate Hraise.
  - rewrite (query_pending_up _ _ _ Hsel Hn) in Hq. discriminate Hq.
  - injection Hraise as ->.
    apply query_pending_Return in Hq. destruct Hq as (_ & _ & ->).
    rewrite !Hb by assumption.
    split; [now apply mark_delivered_Raise in Hm|].
    split; [reflexivity|]. split; [reflexivity|].
    split;
      [|intros Hdq; split;
          [intros next; now apply answers_query_unique | reflexivity]].
    destruct (rows_with env true (List.length (posted w))
                (pending_rows (db w) n)) as [|g good] eqn:Hgood;
      [congruence|].
    destruct (rows_with_true_nth env (pending_rows (db w) n)
                (List.length (posted w)) g) as (j & Hj & Hp);
      [rewrite Hgood; now left|].
    exists j. split; [|exact Hp]. rewrite length_map.
    apply nth_error_Some. congruence.
Qed.

Lemma lost_mark_posts_again_witness :
  let w := {| db := [row 1 10 None None; row 2 20 None None];
              posted := [] |} in
  let w1 := snd (drain_batch commit_down settings 40 100 w) in
  posted (snd (drain_batch (up always_200) settings 50 100 w1))
  = [build_request settings (row 1 10 None None);
     build_request settings (row 2 20 None None);
     build_request settings (row 1 10 None None);
     build_request settings (row 2 20 None None)].
Proof.
  intros w w1.
  destruct (lost_mark_posts_again commit_down (up always_200) settings
              40 50 100 w (OperationalError "MySQL server has gone away")
              eq_refl ltac:(lia) eq_refl eq_refl)
    as (_ & _ & _ & _ & H).
  exact (proj2 (H eq_refl)).
Defined.

(** * The stats of the WebSocket supervisor *)

(** X8. The uptime that [get_server_stats] reports reads
    [<h>h <m>m <s>s] for numbers that split the uptime exactly: the uptime
    is [3600 h + 60 m + s] seconds with [m] and [s] between 0 and 59, and
    [h] is negative only for a negative uptime. An uptime of [h] hours, [m]
    minutes and [s] seconds in those ranges is reported with these very
    numbers. *)
Theorem uptime_splits_seconds (g : WsServer.Globals) (uptime_seconds getpid : Z)
  (poll1 poll2 : option Z) :
  let shown :=
    WsServer.uptime
      (WsServer.python_server
         (WsServer.get_server_stats g uptime_seconds getpid poll1 poll2)) in
  (exists h m s,
      shown = (str_int h ++ "h " ++ str_int m ++ "m " ++ str_int s ++ "s")%string
      /\ uptime_seconds = 3600 * h + 60 * m + s
      /\ 0 <= m < 60 /\ 0 <= s < 60
      /\ (0 <= h <-> 0 <= uptime_seconds))
  /\ (forall h m s,
        uptime_seconds = 3600 * h + 60 * m + s ->
        0 <= m < 60 -> 0 <= s < 60 ->
        shown
        = (str_int h ++ "h " ++ str_int m ++ "m " ++ str_int s ++ "s")%string).
Proof.
  intros shown. subst shown. unfold WsServer.get_server_stats.
  cbn [WsServer.uptime WsServer.python_server].
  split.
  - exists (uptime_seconds / 3600), (uptime_seconds mod 3600 / 60),
      (uptime_seconds mod 60).
    split; [reflexivity|].
    repeat split; Z.div_mod_to_equations; lia.
  - intros h m s -> Hm Hs.
    assert (Hh : (3600 * h + 60 * m + s) / 3600 = h)
      by (Z.div_mod_to_equations; lia).
    assert (Hmin : ((3600 * h + 60 * m + s) mod 3600) / 60 = m)
      by (Z.div_mod_to_equations; lia).
    assert (Hsec : (3600 * h + 60 * m + s) mod 60 = s)
      by (Z.div_mod_to_equations; lia).
    now rewrite Hh, Hmin, Hsec.
Qed.

Lemma uptime_splits_seconds_witness :
  WsServer.uptime
    (WsServer.python_server
       (WsServer.get_server_stats
          {| WsServer.node_process := Some {| WsServer.pid := 4711 |};
             WsServer.connected_clients := [];
             WsServer.room_subscriptions := [];
             WsServer.node_restart_count := 0 |}
          93784 1 None None))
  = "26h 3m 4s".
Proof.
  apply (proj2 (uptime_splits_seconds _ 93784 1 None None) 26 3 4);
    [reflexivity | lia | lia].
Defined.

(** * The reply rules of the bot *)

(** ** The history of a room *)

Lemma last_n_short {A} (k : nat) (l : list A) :
  (List.length l <= k)%nat -> ChatBot.last_n k l = l.
Proof.
  intros H. unfold ChatBot.last_n.
  replace (List.length l - k)%nat with 0%nat by lia. reflexivity.
Qed.

Lemma last_n_length {A} (k : nat) (l : list A) :
  List.length (ChatBot.last_n k l) = Nat.min k (List.length l).
Proof. unfold ChatBot.last_n. rewrite length_skipn. lia. Qed.

(** Keeping the last [k] at every step keeps the last [k] of the whole. *)
Lemma last_n_snoc {A} (k : nat) (l : list A) (e : A) :
  (1 <= k)%nat ->
  ChatBot.last_n k (ChatBot.last_n k l ++ [e]) = ChatBot.last_n k (l ++ [e]).
Proof.
  intros Hk. destruct (Nat.le_gt_cases (List.length l) k) as [Hle|Hgt].
  - now rewrite (last_n_short k l Hle).
  - unfold ChatBot.last_n.
    rewrite !length_app, length_skipn. simpl List.length.
    rewrite !skipn_app, skipn_skipn, length_skipn.
    replace (List.length l - (List.length l - k) + 1 - k
             + (List.length l - k))%nat
      with (List.length l + 1 - k)%nat by lia.
    f_equal. f_equal. lia.
Qed.

Lemma add_to_history_room (h : ChatBot.History) (message_text room_id : string)
  (now : Z) :
  ChatBot.add_to_history h message_text room_id now room_id
  = Some (ChatBot.last_n 10
            (match h room_id with Some l => l | None => [] end
             ++ [{| ChatBot.text := message_text;
                    ChatBot.timestamp := now |}])).
Proof.
  unfold ChatBot.add_to_history. rewrite String.eqb_refl.
  destruct (h room_id) as [l|] eqn:Hl.
  - rewrite Hl. destruct (10 <? _)%nat eqn:E; [reflexivity|].
    apply Nat.ltb_ge in E. now rewrite last_n_short.
  - rewrite String.eqb_refl. reflexivity.
Qed.

Lemma add_to_history_other (h : ChatBot.History) (message_text room_id : string)
  (now : Z) (r : string) :
  r <> room_id ->
  ChatBot.add_to_history h message_text room_id now r = h r.
Proof.
  intros Hr. apply String.eqb_neq in Hr.
  unfold ChatBot.add_to_history. rewrite Hr.
  destruct (h room_id); [reflexivity | now rewrite Hr].
Qed.

Lemma generate_response_history (lower strip : string -> string)
  (cfg : ChatBot.Config) (ch : ChatBot.Chance) (now : Z) (h : ChatBot.History)
  (message_text room_id : string) :
  snd (ChatBot.generate_response lower strip cfg ch now h message_text room_id)
  = ChatBot.add_to_history h message_text room_id now.
Proof.
  unfold ChatBot.generate_response.
  repeat match goal with |- context [if ?b then _ else _] => destruct b end;
    reflexivity.
Qed.

Lemma entries_of_snoc (room_id : string) (calls : list ChatBot.Call)
  (c : ChatBot.Call) :
  ChatBot.entries_of room_id (calls ++ [c])
  = ChatBot.entries_of room_id calls
    ++ if String.eqb (ChatBot.call_room c) room_id
       then [{| ChatBot.text := ChatBot.call_text c;
                ChatBot.timestamp := ChatBot.call_now c |}]
       else [].
Proof.
  unfold ChatBot.entries_of. rewrite filter_app, map_app. simpl.
  now destruct (String.eqb (ChatBot.call_room c) room_id).
Qed.

(** X9. Every message that reaches [generate_response] is recorded in the
    history of its room, whether or not the bot replies, and in no other
    room. Started with no history, after any run of messages a room has a
    history exactly when a message came for it, and that history is the last
    ten messages of the room, fewer when fewer came, in arrival order. *)
Theorem history_is_last_ten (lower strip : string -> string)
  (cfg : ChatBot.Config) (calls : list ChatBot.Call) (room_id : string) :
  let h := ChatBot.history_after lower strip cfg calls ChatBot.no_history in
  h room_id
  = match ChatBot.entries_of room_id calls with
    | [] => None
    | l => Some (ChatBot.last_n 10 l)
    end
  /\ (forall l, h room_id = Some l ->
        (1 <= List.length l <= 10)%nat
        /\ List.length l
           = Nat.min 10 (List.length (ChatBot.entries_of room_id calls))).
Proof.
  intros h. subst h.
  assert (Hmain :
    ChatBot.history_after lower strip cfg calls ChatBot.no_history room_id
    = match ChatBot.entries_of room_id calls with
      | [] => None
      | l => Some (ChatBot.last_n 10 l)
      end).
  { induction calls as [|c calls IH] using rev_ind; [reflexivity|].
    unfold ChatBot.history_after in *. rewrite fold_left_app. simpl.
    rewrite generate_response_history, entries_of_snoc.
    destruct (String.eqb (ChatBot.call_room c) room_id) eqn:E.
    - apply String.eqb_eq in E. subst room_id.
      rewrite add_to_history_room, IH.
      destruct (ChatBot.entries_of (ChatBot.call_room c) calls) as [|e l];
        [reflexivity|].
      rewrite last_n_snoc by lia. simpl app.
      destruct l; reflexivity.
    - rewrite add_to_history_other, IH, app_nil_r; [reflexivity|].
      intros ->. now rewrite String.eqb_refl in E. }
  split; [exact Hmain|]. intros l. rewrite Hmain.
  destruct (ChatBot.entries_of room_id calls) as [|e es]; [discriminate|].
  intros [= <-]. rewrite last_n_length. simpl List.length. lia.
Qed.

Lemma history_is_last_ten_witness :
  let h := ChatBot.history_after (fun s => s) (fun s => s) rule_bot
             thirteen_calls ChatBot.no_history in
  option_map (map ChatBot.timestamp) (h "lobby")
  = Some [3; 4; 5; 6; 7; 8; 9; 10; 11; 12]
  /\ option_map (map ChatBot.timestamp) (h "dev") = Some [13]
  /\ h "other" = None.
Proof.
  intros h. subst h.
  rewrite (proj1 (history_is_last_ten (fun s => s) (fun s => s) rule_bot
                    thirteen_calls "lobby")).
  rewrite (proj1 (history_is_last_ten (fun s => s) (fun s => s) rule_bot
                    thirteen_calls "dev")).
  rewrite (proj1 (history_is_last_ten (fun s => s) (fun s => s) rule_bot
                    thirteen_calls "other")).
  repeat split.
Defined.

(** ** Substrings *)

Lemma startswith_spec (p s : string) :
  ChatBot.startswith p s = true <-> exists post, s = (p ++ post)%string.
Proof.
  revert s. induction p as [|a p IH]; intros s; simpl.
  - split; [intros _; now exists s | reflexivity].
  - destruct s as [|b s]; simpl.
    + split; [discriminate | intros (post & H); discriminate H].
    + rewrite andb_true_iff, Ascii.eqb_eq, IH. split.
      * intros (-> & post & ->). now exists post.
      * intros (post & [= -> ->]). split; [reflexivity | now exists post].
Qed.

Lemma contains_spec (sub s : string) :
  ChatBot.contains sub s = true <->
  exists pre post, s = (pre ++ sub ++ post)%string.
Proof.
  induction s as [|b s IH]; simpl.
  - rewrite orb_false_r, startswith_spec. split.
    + intros (post & H). now exists ""%string, post.
    + intros (pre & post & H). destruct pre; simpl in H; [now exists post|].
      discriminate H.
  - rewrite orb_true_iff, startswith_spec, IH. split.
    + intros [(post & H)|(pre & post & ->)].
      * now exists ""%string, post.
      * now exists (String b pre), post.
    + intros (pre & post & H). destruct pre as [|c pre]; simpl in H.
      * left. now exists post.
      * injection H as -> ->. right. now exists pre, post.
Qed.

Lemma string_app_assoc (a b c : string) :
  ((a ++ b) ++ c = a ++ b ++ c)%string.
Proof. induction a as [|x a IH]; simpl; [reflexivity | now rewrite IH]. Qed.

(** A substring of a substring is a substring. *)
Lemma contains_trans (a b c : string) :
  ChatBot.contains a b = true -> ChatBot.contains b c = true ->
  ChatBot.contains a c = true.
Proof.
  rewrite !contains_spec.
  intros (p1 & q1 & ->) (p2 & q2 & ->).
  exists (p2 ++ p1)%string, (q1 ++ q2)%string.
  now rewrite !string_app_assoc.
Qed.

(** ** The rule-based reply *)

Lemma choice_In (ch : ChatBot.Chance) (seq : list string) :
  seq <> [] -> In (ChatBot.choice ch seq) seq.
Proof.
  intros H. unfold ChatBot.choice. apply nth_In.
  apply Nat.mod_upper_bound. destruct seq; [congruence | discriminate].
Qed.

Lemma repertoire_nonempty (reply : string) :
  In reply (ChatBot.greetings ++ ChatBot.questions ++ ChatBot.goodbye
            ++ ChatBot.thanks ++ ChatBot.default) ->
  reply <> ""%string.
Proof.
  simpl. intros H.
  repeat (destruct H as [<-|H]; [discriminate|]). contradiction.
Qed.

Lemma simple_reply_repertoire (lower strip : string -> string)
  (cfg : ChatBot.Config) (ch : ChatBot.Chance) (message_text room_id : string) :
  let reply :=
    ChatBot._generate_simple_response lower strip cfg ch message_text
      room_id in
  In reply (ChatBot.greetings ++ ChatBot.questions ++ ChatBot.goodbye
            ++ ChatBot.thanks ++ ChatBot.default)
  \/ reply = "I'm doing great, thanks for asking! How are you?"%string
  \/ reply
     = ("I'm " ++ ChatBot.bot_handle cfg ++ "! Nice to meet you!")%string
  \/ reply
     = ("I'm " ++ ChatBot.bot_handle cfg
          ++ ", a friendly AI chatbot here to chat with you!")%string.
Proof.
  intros reply. subst reply.
  assert (Hg : In (ChatBot.choice ch ChatBot.greetings) ChatBot.greetings)
    by (apply choice_In; discriminate).
  assert (Hq : In (ChatBot.choice ch ChatBot.questions) ChatBot.questions)
    by (apply choice_In; discriminate).
  assert (Hb : In (ChatBot.choice ch ChatBot.goodbye) ChatBot.goodbye)
    by (apply choice_In; discriminate).
  assert (Ht : In (ChatBot.choice ch ChatBot.thanks) ChatBot.thanks)
    by (apply choice_In; discriminate).
  assert (Hd : In (ChatBot.choice ch ChatBot.default) ChatBot.default)
    by (apply choice_In; discriminate).
  unfold ChatBot._generate_simple_response.
  repeat match goal with
         | |- context [if ?b then _ else _] => destruct b
         end; auto;
    left; rewrite !in_app_iff; auto 10.
Qed.

Lemma simple_reply_nonempty (lower strip : string -> string)
  (cfg : ChatBot.Config) (ch : ChatBot.Chance) (message_text room_id : string) :
  ChatBot._generate_simple_response lower strip cfg ch message_text room_id
  <> ""%string.
Proof.
  destruct (simple_reply_repertoire lower strip cfg ch message_text room_id)
    as [H | [-> | [-> | ->]]]; try discriminate.
  now apply repertoire_nonempty.
Qed.

(** X10. The rule-based reply is never empty and is always one of the
    canned replies or one of the three sentences about the bot. The greeting
    rule comes first and tests substrings: a message whose lowered text
    contains any word that contains [hi] (as [this] or [which] do) is
    answered with a greeting, question, thanks or farewell though it may be.
    Without a greeting word, a question mark decides next: a message with
    one is never answered with a farewell or a thanks reply; and a message
    that matches no rule gets one of the default replies. *)
Theorem simple_reply_rules (lower strip : string -> string)
  (cfg : ChatBot.Config) (ch : ChatBot.Chance) (message_text room_id : string) :
  let message_lower := strip (lower message_text) in
  let reply :=
    ChatBot._generate_simple_response lower strip cfg ch message_text
      room_id in
  reply <> ""%string
  /\ (In reply (ChatBot.greetings ++ ChatBot.questions ++ ChatBot.goodbye
                ++ ChatBot.thanks ++ ChatBot.default)
      \/ reply = "I'm doing great, thanks for asking! How are you?"%string
      \/ reply
         = ("I'm " ++ ChatBot.bot_handle cfg ++ "! Nice to meet you!")%string
      \/ reply
         = ("I'm " ++ ChatBot.bot_handle cfg
              ++ ", a friendly AI chatbot here to chat with you!")%string)
  /\ (forall word,
        ChatBot.contains "hi" word = true ->
        ChatBot.contains word message_lower = true ->
        In reply ChatBot.greetings)
  /\ (ChatBot.any_in ["hello"; "hi"; "hey"; "greetings"] message_lower = false ->
      ChatBot.contains "?" message_text = true ->
      ~ In reply (ChatBot.greetings ++ ChatBot.goodbye ++ ChatBot.thanks
                  ++ ChatBot.default))
  /\ (ChatBot.any_in ["hello"; "hi"; "hey"; "greetings"] message_lower = false ->
      ChatBot.contains "?" message_text = false ->
      ChatBot.any_in ["bye"; "goodbye"; "see you"; "farewell"] message_lower
      = false ->
      ChatBot.any_in ["thank"; "thanks"; "thx"] message_lower = false ->
      In reply ChatBot.default).
Proof.
  intros message_lower reply.
  assert (Hg : In (ChatBot.choice ch ChatBot.greetings) ChatBot.greetings)
    by (apply choice_In; discriminate).
  assert (Hq : In (ChatBot.choice ch ChatBot.questions) ChatBot.questions)
    by (apply choice_In; discriminate).
  assert (Hb : In (ChatBot.choice ch ChatBot.goodbye) ChatBot.goodbye)
    by (apply choice_In; discriminate).
  assert (Ht : In (ChatBot.choice ch ChatBot.thanks) ChatBot.thanks)
    by (apply choice_In; discriminate).
  assert (Hd : In (ChatBot.choice ch ChatBot.default) ChatBot.default)
    by (apply choice_In; discriminate).
  assert (Hrep := simple_reply_repertoire lower strip cfg ch message_text
                  room_id).
  fold reply in Hrep.
  split; [|split; [exact Hrep|split; [|split]]].
  - apply simple_reply_nonempty.
  - intros word Hhi Hword. subst reply.
    unfold ChatBot._generate_simple_response. fold message_lower.
    assert (Hin : ChatBot.contains "hi" message_lower = true)
      by (eapply contains_trans; eauto).
    unfold ChatBot.any_in. cbn [existsb]. rewrite Hin.
    rewrite orb_true_r. exact Hg.
  - intros Hno Hmark. subst reply.
    unfold ChatBot._generate_simple_response. fold message_lower.
    rewrite Hno, Hmark. intros Hin.
    assert (Hout : forall r, In r ChatBot.questions ->
                     ~ In r (ChatBot.greetings ++ ChatBot.goodbye
                             ++ ChatBot.thanks ++ ChatBot.default)).
    { simpl. intros r Hr.
      repeat (destruct Hr as [<-|Hr];
              [intros H; repeat (destruct H as [H|H]; [discriminate H|]);
               contradiction|]).
      contradiction. }
    repeat match type of Hin with
           | context [if ?b then _ else _] => destruct b
           end;
      try (revert Hin; simpl;
           intros H; repeat (destruct H as [H|H]; [discriminate H|]);
           contradiction).
    exact (Hout _ Hq Hin).
  - intros Hno Hmark Hbye Hthx. subst reply.
    unfold ChatBot._generate_simple_response. fold message_lower.
    now rewrite Hno, Hmark, Hbye, Hthx.
Qed.

Lemma simple_reply_rules_witness :
  In (ChatBot._generate_simple_response (fun s => s) (fun s => s) rule_bot
        quiet "is this right?" "lobby")
    ChatBot.greetings.
Proof.
  apply (proj1 (proj2 (proj2 (simple_reply_rules (fun s => s) (fun s => s)
                                rule_bot quiet "is this right?" "lobby")))
           "this"%string);
    reflexivity.
Defined.

(** ** Replying or not *)



(** * The message encoding of the bot *)

(** ** Bytes and tables *)

Ltac n_div_lia := zify; Z.to_euclidean_division_equations; lia.

Lemma code_bound (c : ascii) : (ChatBot.code c < 256)%N.
Proof. apply N_ascii_bounded. Qed.

Lemma ascii_of_code (c : ascii) : ascii_of_N (ChatBot.code c) = c.
Proof. apply ascii_N_embedding. Qed.

Lemma below_enumerated (k : nat) (i : N) :
  (i < N.of_nat k)%N -> In i (map N.of_nat (seq 0 k)).
Proof.
  intros H. rewrite <- (N2Nat.id i). apply in_map, in_seq. lia.
Qed.

Lemma b64_char_facts (i : N) :
  (i < 64)%N ->
  ChatBot.b64_value (ChatBot.b64_char i) = Some i
  /\ Ascii.eqb (ChatBot.b64_char i) "=" = false
  /\ ChatBot.is_ascii (ChatBot.b64_char i) = true.
Proof.
  intros H.
  assert (Hall :
    forallb (fun j =>
               match ChatBot.b64_value (ChatBot.b64_char j) with
               | Some v => N.eqb v j
               | None => false
               end
               && negb (Ascii.eqb (ChatBot.b64_char j) "=")
               && ChatBot.is_ascii (ChatBot.b64_char j))
      (map N.of_nat (seq 0 64)) = true) by (vm_compute; reflexivity).
  rewrite forallb_forall in Hall.
  specialize (Hall i (below_enumerated 64 i H)).
  apply andb_true_iff in Hall. destruct Hall as [Hall Hascii].
  apply andb_true_iff in Hall. destruct Hall as [Hval Hpad].
  apply negb_true_iff in Hpad.
  destruct (ChatBot.b64_value (ChatBot.b64_char i)) as [v|];
    [|discriminate]. apply N.eqb_eq in Hval. now subst.
Qed.

Lemma sextets_regroup (n : N) :
  (((n / 64 / 64 / 64 * 64 + (n / 64 / 64) mod 64) * 64 + (n / 64) mod 64) * 64
   + n mod 64 = n)%N.
Proof. n_div_lia. Qed.

Lemma regroup3 (x y z : N) :
  (x < 256 -> y < 256 -> z < 256 ->
   let n := x * 65536 + y * 256 + z in
   let v1 := n / 262144 in
   let v2 := n / 4096 mod 64 in
   let v3 := n / 64 mod 64 in
   let v4 := n mod 64 in
   v1 < 64 /\ v2 < 64 /\ v3 < 64 /\ v4 < 64
   /\ ((v1 * 64 + v2) * 64 + v3) * 64 + v4 = n
   /\ n / 65536 = x /\ n / 256 mod 256 = y /\ n mod 256 = z)%N.
Proof.
  intros Hx Hy Hz n v1 v2 v3 v4. subst v1 v2 v3 v4.
  assert (Hn : n = (x * 65536 + y * 256 + z)%N) by reflexivity.
  clearbody n.
  assert (H1 : (n / 4096 = n / 64 / 64)%N)
    by (rewrite N.Div0.div_div; reflexivity).
  assert (H2 : (n / 262144 = n / 64 / 64 / 64)%N)
    by (rewrite !N.Div0.div_div; reflexivity).
  rewrite H1, H2. clear H1 H2.
  do 4 (split; [n_div_lia|]).
  split; [apply sextets_regroup|].
  subst n. repeat split; n_div_lia.
Qed.

Lemma regroup2 (x y : N) :
  (x < 256 -> y < 256 ->
   let n := (x * 256 + y) * 4 in
   let v1 := n / 4096 in
   let v2 := n / 64 mod 64 in
   let v3 := n mod 64 in
   v1 < 64 /\ v2 < 64 /\ v3 < 64
   /\ (((v1 * 64 + v2) * 64 + v3) / 4) / 256 = x
   /\ (((v1 * 64 + v2) * 64 + v3) / 4) mod 256 = y)%N.
Proof.
  intros Hx Hy n v1 v2 v3. subst v1 v2 v3.
  assert (Hn : n = ((x * 256 + y) * 4)%N) by reflexivity.
  clearbody n.
  assert (H1 : (n / 4096 = n / 64 / 64)%N)
    by (rewrite N.Div0.div_div; reflexivity).
  rewrite H1. clear H1.
  assert (H : ((n / 64 / 64 * 64 + (n / 64) mod 64) * 64 + n mod 64 = n)%N)
    by n_div_lia.
  rewrite H. subst n. repeat split; n_div_lia.
Qed.

Lemma regroup1 (x : N) :
  (x < 256 ->
   let n := x * 16 in
   let v1 := n / 64 in
   let v2 := n mod 64 in
   v1 < 64 /\ v2 < 64 /\ (v1 * 64 + v2) / 16 = x)%N.
Proof.
  intros Hx n v1 v2. subst v1 v2.
  assert (Hn : n = (x * 16)%N) by reflexivity. clearbody n.
  assert (H : (n / 64 * 64 + n mod 64 = n)%N) by n_div_lia.
  rewrite H. subst n. repeat split; n_div_lia.
Qed.

(** ** Base64 *)

Lemma all_ascii_app (a b : string) :
  ChatBot.all_ascii (a ++ b) = ChatBot.all_ascii a && ChatBot.all_ascii b.
Proof.
  induction a as [|c a IH]; simpl; [reflexivity|].
  now rewrite IH, andb_assoc.
Qed.

(** A whole group of four characters decodes to the three bytes it spells. *)
Lemma b64decode_quads_group (v1 v2 v3 v4 : N) (rest bytes : string) :
  (v1 < 64)%N -> (v2 < 64)%N -> (v3 < 64)%N -> (v4 < 64)%N ->
  ChatBot.b64decode_quads rest = Some bytes ->
  ChatBot.b64decode_quads
    (String (ChatBot.b64_char v1)
       (String (ChatBot.b64_char v2)
          (String (ChatBot.b64_char v3)
             (String (ChatBot.b64_char v4) rest))))
  = let n := ((((v1 * 64 + v2) * 64 + v3) * 64 + v4)%N) in
    Some (String (ascii_of_N (n / 65536))
            (String (ascii_of_N (n / 256 mod 256))
               (String (ascii_of_N (n mod 256)) bytes))).
Proof.
  intros H1 H2 H3 H4 Hrest.
  destruct (b64_char_facts v1 H1) as (E1 & _ & _).
  destruct (b64_char_facts v2 H2) as (E2 & _ & _).
  destruct (b64_char_facts v3 H3) as (E3 & P3 & _).
  destruct (b64_char_facts v4 H4) as (E4 & P4 & _).
  cbn [ChatBot.b64decode_quads].
  rewrite E1, E2, P3, E3, P4, E4, Hrest. reflexivity.
Qed.

Lemma b64_round_trip_upto (k : nat) :
  forall bs, (String.length bs <= k)%nat ->
    ChatBot.b64decode_quads (ChatBot.b64encode bs) = Some bs
    /\ ChatBot.all_ascii (ChatBot.b64encode bs) = true.
Proof.
  induction k as [|k IH]; intros bs Hlen.
  - destruct bs; [now split | simpl in Hlen; lia].
  - destruct bs as [|a [|b [|c rest]]].
    + now split.
    + (* one byte *)
      destruct (regroup1 (ChatBot.code a) (code_bound a)) as (H1 & H2 & Hx).
      destruct (b64_char_facts _ H1) as (E1 & _ & A1).
      destruct (b64_char_facts _ H2) as (E2 & _ & A2).
      cbn [ChatBot.b64encode ChatBot.b64decode_quads ChatBot.all_ascii].
      rewrite E1, E2, A1, A2. cbn. split; [|reflexivity].
      now rewrite Hx, ascii_of_code.
    + (* two bytes *)
      destruct (regroup2 (ChatBot.code a) (ChatBot.code b)
                  (code_bound a) (code_bound b))
        as (H1 & H2 & H3 & Hx & Hy).
      destruct (b64_char_facts _ H1) as (E1 & _ & A1).
      destruct (b64_char_facts _ H2) as (E2 & _ & A2).
      destruct (b64_char_facts _ H3) as (E3 & P3 & A3).
      cbn [ChatBot.b64encode ChatBot.b64decode_quads ChatBot.all_ascii].
      rewrite E1, E2, P3, E3, A1, A2, A3. cbn. split; [|reflexivity].
      now rewrite Hx, Hy, !ascii_of_code.
    + (* three bytes and the rest *)
      destruct (IH rest) as [IHd IHa]; [simpl in Hlen; lia|].
      destruct (regroup3 (ChatBot.code a) (ChatBot.code b) (ChatBot.code c)
                  (code_bound a) (code_bound b) (code_bound c))
        as (H1 & H2 & H3 & H4 & Hn & Hx & Hy & Hz).
      cbn [ChatBot.b64encode].
      split.
      * rewrite (b64decode_quads_group _ _ _ _ _ _ H1 H2 H3 H4 IHd).
        cbv zeta. rewrite Hn, Hx, Hy, Hz, !ascii_of_code. reflexivity.
      * destruct (b64_char_facts _ H1) as (_ & _ & A1).
        destruct (b64_char_facts _ H2) as (_ & _ & A2).
        destruct (b64_char_facts _ H3) as (_ & _ & A3).
        destruct (b64_char_facts _ H4) as (_ & _ & A4).
        cbn [ChatBot.all_ascii]. now rewrite A1, A2, A3, A4, IHa.
Qed.

Lemma b64_round_trip (bs : string) :
  ChatBot.b64decode_quads (ChatBot.b64encode bs) = Some bs
  /\ ChatBot.all_ascii (ChatBot.b64encode bs) = true.
Proof. apply (b64_round_trip_upto (String.length bs)). lia. Qed.

(** ** Percent-encoding *)

Ltac each_byte c := destruct c as [[] [] [] [] [] [] [] []].

Lemma unquote_quote_byte (c : ascii) (rest : string) :
  ChatBot.unquote_to_bytes (ChatBot.quote_byte c ++ rest)
  = String c (ChatBot.unquote_to_bytes rest).
Proof. each_byte c; reflexivity. Qed.

Lemma quote_byte_ascii (c : ascii) :
  ChatBot.all_ascii (ChatBot.quote_byte c) = true.
Proof. each_byte c; reflexivity. Qed.

(** Unquoting to bytes undoes quoting, on every byte string. *)
Lemma unquote_to_bytes_quote (bs : string) :
  ChatBot.unquote_to_bytes (ChatBot.quote bs) = bs.
Proof.
  induction bs as [|c bs IH]; simpl; [reflexivity|].
  now rewrite unquote_quote_byte, IH.
Qed.

Lemma quote_ascii (bs : string) :
  ChatBot.all_ascii (ChatBot.quote bs) = true.
Proof.
  induction bs as [|c bs IH]; simpl; [reflexivity|].
  now rewrite all_ascii_app, quote_byte_ascii, IH.
Qed.

Lemma valid_utf8_ascii (s : string) :
  ChatBot.all_ascii s = true -> ChatBot.valid_utf8 s = true.
Proof.
  induction s as [|c s IH]; simpl; [reflexivity|].
  intros H. apply andb_true_iff in H. destruct H as [Hc Hs].
  rewrite Hc. now apply IH.
Qed.

Lemma percent_not_eq (c : ascii) :
  Ascii.eqb c "%" = false ->
  forall rest,
    ChatBot.unquote_to_bytes (String c rest)
    = String c (ChatBot.unquote_to_bytes rest).
Proof. intros H rest. simpl. now rewrite H. Qed.

(** Text without a percent sign unquotes to itself. *)
Lemma unquote_to_bytes_plain (s : string) :
  ChatBot.contains "%" s = false -> ChatBot.unquote_to_bytes s = s.
Proof.
  induction s as [|c s IH]; [reflexivity|].
  cbn [ChatBot.contains ChatBot.startswith]. intros H.
  apply orb_false_iff in H. destruct H as [Hc Hs].
  rewrite andb_true_r in Hc.
  assert (Hc' : Ascii.eqb c "%" = false)
    by (rewrite Ascii.eqb_sym; exact Hc).
  rewrite (percent_not_eq c Hc'). now rewrite IH.
Qed.

Section Unquote.
Context (replace_invalid : string -> string).

(** On ASCII text the runs of [unquote] are the whole text. *)
Lemma unquote_runs_ascii (s run : string) :
  ChatBot.all_ascii s = true ->
  ChatBot.unquote_runs replace_invalid s run
  = ChatBot.decode_utf8_replace replace_invalid
      (ChatBot.unquote_to_bytes (run ++ s)).
Proof.
  revert run. induction s as [|c s IH]; intros run; simpl.
  - intros _. f_equal. f_equal.
    induction run as [|x run IHr]; simpl; [reflexivity | now rewrite <- IHr].
  - intros H. apply andb_true_iff in H. destruct H as [Hc Hs].
    rewrite Hc, (IH _ Hs), string_app_assoc. reflexivity.
Qed.

Lemma unquote_quote (text : string) :
  ChatBot.valid_utf8 text = true ->
  ChatBot.unquote replace_invalid (ChatBot.quote text) = text.
Proof.
  intros Hvalid. unfold ChatBot.unquote.
  destruct (ChatBot.contains "%" (ChatBot.quote text)) eqn:E.
  - rewrite unquote_runs_ascii by apply quote_ascii. simpl.
    rewrite unquote_to_bytes_quote. unfold ChatBot.decode_utf8_replace.
    now rewrite Hvalid.
  - rewrite <- (unquote_to_bytes_plain _ E) at 1.
    apply unquote_to_bytes_quote.
Qed.
End Unquote.

(** ** What is sent can be read *)

Lemma message_round_trip_facts (lenient_b64 : string -> py_result string)
  (replace_invalid : string -> string) (message_text : string) :
  ChatBot.all_ascii (ChatBot.encode_message message_text) = true
  /\ ChatBot.b64decode_quads (ChatBot.encode_message message_text)
     = Some (ChatBot.quote message_text)
  /\ ChatBot.unquote_to_bytes (ChatBot.quote message_text) = message_text
  /\ (ChatBot.valid_utf8 message_text = true ->
      ChatBot.decode_message lenient_b64 replace_invalid
        (Some (ChatBot.encode_message message_text))
      = Return message_text).
Proof.
  unfold ChatBot.encode_message.
  destruct (b64_round_trip (ChatBot.quote message_text)) as [Hd Ha].
  split; [exact Ha|]. split; [exact Hd|].
  split; [apply unquote_to_bytes_quote|].
  intros Hvalid. unfold ChatBot.decode_message, ChatBot.b64decode.
  rewrite Ha, Hd. unfold ChatBot.decode_utf8.
  rewrite (valid_utf8_ascii _ (quote_ascii message_text)).
  now rewrite unquote_quote.
Qed.

(** X12. The blob [send_message] builds is ASCII text in whole base64
    groups; decoding it as base64 gives back the quoted text, and unquoting
    that to bytes gives back the bytes of the message, whatever they are.
    For a message that is well-formed UTF-8, which every text the bot can
    encode is, the decoding of [handle_message] returns the message, and
    never raises on such a blob. *)
Theorem message_round_trip (lenient_b64 : string -> py_result string)
  (replace_invalid : string -> string) (message_text : string) :
  let blob := ChatBot.encode_message message_text in
  ChatBot.all_ascii blob = true
  /\ ChatBot.b64decode_quads blob = Some (ChatBot.quote message_text)
  /\ ChatBot.unquote_to_bytes (ChatBot.quote message_text) = message_text
  /\ (ChatBot.valid_utf8 message_text = true ->
      ChatBot.decode_message lenient_b64 replace_invalid (Some blob)
      = Return message_text).
Proof.
  intros blob. subst blob. apply message_round_trip_facts.
Qed.

Lemma message_round_trip_witness :
  ChatBot.encode_message accented = "aCVDMyVBOSUyMCUyNiUyMDEwMCUyNQ=="
  /\ ChatBot.decode_message b64_strict to_question_mark
       (Some (ChatBot.encode_message accented))
     = Return accented.
Proof.
  split; [reflexivity|].
  apply (message_round_trip b64_strict to_question_mark accented).
  reflexivity.
Defined.

(** ** Handling a message *)

(** Under the names of rooms, the history kept for any key is the history
    of [add_to_history]. *)
Lemma add_to_rooms_name (h : ChatBot.Rooms) (message_text r s : string)
  (now : Z) :
  ChatBot.add_to_rooms h message_text (ChatBot.RoomName r) now
    (ChatBot.RoomName s)
  = ChatBot.add_to_history (fun x => h (ChatBot.RoomName x)) message_text r
      now s.
Proof.
  unfold ChatBot.add_to_rooms, ChatBot.add_to_history.
  destruct (h (ChatBot.RoomName r)) as [l|] eqn:Hr;
    cbn [ChatBot.same_room]; [rewrite Hr | rewrite String.eqb_refl];
    reflexivity.
Qed.

(** A message to one key leaves the history of every other key. *)
Lemma add_to_rooms_other (h : ChatBot.Rooms) (message_text : string)
  (room_id other : ChatBot.RoomId) (now : Z) :
  ChatBot.same_room other room_id = false ->
  ChatBot.add_to_rooms h message_text room_id now other = h other.
Proof.
  unfold ChatBot.add_to_rooms. intros E.
  destruct (h room_id); cbv beta; now rewrite !E.
Qed.

Section Handling.
Context (lower strip : string -> string).
Context (lenient_b64 : string -> py_result string).
Context (replace_invalid : string -> string).

Let handle := ChatBot.handle_message lower strip lenient_b64 replace_invalid.

Lemma send_message_post (cfg : ChatBot.Config) (api : ChatBot.Api)
  (room_id : ChatBot.RoomId) (message_text : string) :
  snd (ChatBot.send_message cfg api room_id message_text)
  = {| ChatBot.post_url := (ChatBot.api_base_url cfg ++ "/messages.php")%string;
       ChatBot.post_room_id := room_id;
       ChatBot.post_sender_handle := ChatBot.bot_handle cfg;
       ChatBot.post_cipher_blob := ChatBot.encode_message message_text;
       ChatBot.post_filter_version := 1;
       ChatBot.post_x_api_secret := ChatBot.api_secret cfg |}.
Proof.
  unfold ChatBot.send_message.
  destruct api as [code [[|]|]|]; [destruct (code =? 200)..|]; reflexivity.
Qed.

(** For a key a dict takes, [generate_response] writes the history of the
    key and replies as it does for the name of a room: the reply depends
    neither on the key nor on the history. *)
Lemma generate_response_in_hashable (cfg : ChatBot.Config)
  (ch : ChatBot.Chance) (now : Z) (h : ChatBot.Rooms) (h0 : ChatBot.History)
  (message_text r : string) (room_id : ChatBot.RoomId) :
  room_id <> ChatBot.RoomUnhashable ->
  ChatBot.generate_response_in lower strip cfg ch now h message_text room_id
  = (Return (fst (ChatBot.generate_response lower strip cfg ch now h0
                    message_text r)),
     ChatBot.add_to_rooms h message_text room_id now).
Proof.
  intros Hkey.
  unfold ChatBot.generate_response_in, ChatBot.generate_response.
  destruct room_id; try congruence;
    (destruct (negb _ && _); [reflexivity|];
     destruct (String.eqb _ "openai" && _); [reflexivity|];
     destruct (String.eqb _ "ollama"); reflexivity).
Qed.

(** A key no dict takes stops [generate_response] before it writes. *)
Lemma generate_response_in_unhashable (cfg : ChatBot.Config)
  (ch : ChatBot.Chance) (now : Z) (h : ChatBot.Rooms)
  (message_text : string) :
  exists e,
    ChatBot.generate_response_in lower strip cfg ch now h message_text
      ChatBot.RoomUnhashable
    = (Raise e, h).
Proof. eexists. reflexivity. Qed.

(** A message of the bot itself leaves the bot as it is and is not
    answered. *)
Lemma handle_own_message (cfg : ChatBot.Config) (ch : ChatBot.Chance)
  (now : Z) (api : ChatBot.Api) (bot : ChatBot.Bot)
  (room_id : ChatBot.RoomId) (cipher_blob : option string) :
  handle cfg ch now api bot
    (ChatBot.NewMessage room_id (Some (ChatBot.bot_handle cfg)) cipher_blob)
  = (bot, []).
Proof.
  subst handle. unfold ChatBot.handle_message.
  now rewrite String.eqb_refl.
Qed.

(** A [new_message] whose room is an array or an object changes nothing
    and is not answered. *)
Lemma handle_unhashable_room (cfg : ChatBot.Config) (ch : ChatBot.Chance)
  (now : Z) (api : ChatBot.Api) (bot : ChatBot.Bot)
  (sender_handle cipher_blob : option string) :
  handle cfg ch now api bot
    (ChatBot.NewMessage ChatBot.RoomUnhashable sender_handle cipher_blob)
  = (bot, []).
Proof.
  subst handle. cbn [ChatBot.handle_message].
  destruct (match sender_handle with
            | Some s => String.eqb s (ChatBot.bot_handle cfg)
            | None => false
            end); [reflexivity|].
  destruct (ChatBot.decode_message _ _ cipher_blob); [|reflexivity].
  destruct bot. reflexivity.
Qed.

(** A message of another sender whose blob decodes, under a key a dict
    takes: the history of the key is written, and the reply, when there is
    one and it is not empty, is sent to that key. *)
Lemma handle_decoded_message (cfg : ChatBot.Config) (ch : ChatBot.Chance)
  (now : Z) (api : ChatBot.Api) (bot : ChatBot.Bot)
  (room_id : ChatBot.RoomId) (sender_handle cipher_blob : option string)
  (message_text : string) (h0 : ChatBot.History) (r : string) :
  sender_handle <> Some (ChatBot.bot_handle cfg) ->
  ChatBot.decode_message lenient_b64 replace_invalid cipher_blob
  = Return message_text ->
  room_id <> ChatBot.RoomUnhashable ->
  handle cfg ch now api bot
    (ChatBot.NewMessage room_id sender_handle cipher_blob)
  = ({| ChatBot.conversation_history :=
          ChatBot.add_to_rooms (ChatBot.conversation_history bot)
            message_text room_id now;
        ChatBot.current_room := ChatBot.current_room bot |},
     match fst (ChatBot.generate_response lower strip cfg ch now h0
                  message_text r) with
     | Some reply =>
         if String.eqb reply "" then []
         else [snd (ChatBot.send_message cfg api room_id reply)]
     | None => []
     end).
Proof.
  intros Hsender Hdecode Hkey. subst handle. cbn [ChatBot.handle_message].
  destruct (match sender_handle with
            | Some s => String.eqb s (ChatBot.bot_handle cfg)
            | None => false
            end) eqn:Hown.
  { destruct sender_handle as [s|]; [|discriminate].
    apply String.eqb_eq in Hown. now subst. }
  rewrite Hdecode.
  rewrite (generate_response_in_hashable cfg ch now _ h0 message_text r
             room_id Hkey).
  destruct (fst (ChatBot.generate_response _ _ _ _ _ _ _ _)) as [reply|];
    [destruct (String.eqb reply "")|]; reflexivity.
Qed.

(** The requests of one handled message: none, or one reply to the key of
    the message, in the name of the bot. *)
Lemma handle_message_posts (cfg : ChatBot.Config) (ch : ChatBot.Chance)
  (now : Z) (api : ChatBot.Api) (bot : ChatBot.Bot)
  (message_data : ChatBot.Incoming) :
  snd (handle cfg ch now api bot message_data) = []
  \/ exists room_id sender_handle cipher_blob reply,
       message_data = ChatBot.NewMessage room_id sender_handle cipher_blob
       /\ sender_handle <> Some (ChatBot.bot_handle cfg)
       /\ reply <> ""%string
       /\ room_id <> ChatBot.RoomUnhashable
       /\ snd (handle cfg ch now api bot message_data)
          = [snd (ChatBot.send_message cfg api room_id reply)].
Proof.
  subst handle.
  destruct message_data as [room_id sender blob|room_id| |msg|];
    try (now left). cbn [ChatBot.handle_message].
  destruct (match sender with
            | Some s => String.eqb s (ChatBot.bot_handle cfg)
            | None => false
            end) eqn:Hown; [now left|].
  destruct (ChatBot.decode_message _ _ blob) as [text|e]; [|now left].
  destruct (ChatBot.generate_response_in _ _ _ _ _ _ _ _)
    as [[[reply|]|e] h'] eqn:Hg; [|now left..].
  destruct (String.eqb reply "") eqn:Hempty; [now left|]. right.
  exists room_id, sender, blob, reply. split; [reflexivity|].
  split; [intros ->; now rewrite String.eqb_refl in Hown|].
  split; [intros ->; discriminate Hempty|].
  split; [|reflexivity]. intros ->. discriminate Hg.
Qed.
End Handling.

(** X13. However it is configured and whatever the providers and the API
    do, the bot answers a message from the WebSocket with at most one
    request, a non-empty reply sent in its own name to the [room_id] of the
    message, and only for a [new_message] of another sender. A message it
    sent itself, such as its own request coming back as a [new_message],
    changes nothing and is not answered. The [room_id] is never tested: a
    message of another sender that carries the blob of a well-formed text is
    recorded under its [room_id], be it a name, a number or [None] for a
    message without one, and is answered there exactly when
    [generate_response] replies to that text with a non-empty reply, which
    depends neither on the room nor on the history. Only a [room_id] that is
    an array or an object, which no dict takes as a key, stops the handling:
    nothing is recorded and nothing is sent. Every other kind of message
    leaves the history as it is and is not answered. *)
Theorem bot_answers_others_only (lower strip : string -> string)
  (lenient_b64 : string -> py_result string)
  (replace_invalid : string -> string)
  (cfg : ChatBot.Config) (ch : ChatBot.Chance) (now : Z) (api : ChatBot.Api)
  (bot : ChatBot.Bot) (message_data : ChatBot.Incoming) :
  let handle :=
    ChatBot.handle_message lower strip lenient_b64 replace_invalid in
  let posts := snd (handle cfg ch now api bot message_data) in
  (List.length posts <= 1)%nat
  /\ (forall p, In p posts ->
        ChatBot.post_sender_handle p = ChatBot.bot_handle cfg
        /\ ChatBot.post_filter_version p = 1
        /\ ChatBot.post_x_api_secret p = ChatBot.api_secret cfg
        /\ (exists reply, reply <> ""%string
                          /\ ChatBot.post_cipher_blob p
                             = ChatBot.encode_message reply)
        /\ (exists sender_handle cipher_blob,
              message_data
              = ChatBot.NewMessage (ChatBot.post_room_id p) sender_handle
                  cipher_blob
              /\ sender_handle <> Some (ChatBot.bot_handle cfg))
        /\ ChatBot.post_room_id p <> ChatBot.RoomUnhashable
        /\ forall ch' now' api' bot',
             handle cfg ch' now' api' bot'
               (ChatBot.NewMessage (ChatBot.post_room_id p)
                  (Some (ChatBot.post_sender_handle p))
                  (Some (ChatBot.post_cipher_blob p)))
             = (bot', []))
  /\ (forall room_id sender_handle message_text,
        message_data
        = ChatBot.NewMessage room_id sender_handle
            (Some (ChatBot.encode_message message_text)) ->
        sender_handle <> Some (ChatBot.bot_handle cfg) ->
        ChatBot.valid_utf8 message_text = true ->
        room_id <> ChatBot.RoomUnhashable ->
        ChatBot.conversation_history
          (fst (handle cfg ch now api bot message_data))
        = ChatBot.add_to_rooms (ChatBot.conversation_history bot)
            message_text room_id now
        /\ forall (h : ChatBot.History) (r : string),
             posts
             = match fst (ChatBot.generate_response lower strip cfg ch now h
                            message_text r) with
               | Some reply =>
                   if String.eqb reply "" then []
                   else [snd (ChatBot.send_message cfg api room_id reply)]
               | None => []
               end)
  /\ (forall sender_handle cipher_blob,
        message_data
        = ChatBot.NewMessage ChatBot.RoomUnhashable sender_handle
            cipher_blob ->
        handle cfg ch now api bot message_data = (bot, []))
  /\ ((forall room_id sender_handle cipher_blob,
         message_data
         <> ChatBot.NewMessage room_id sender_handle cipher_blob) ->
      posts = []
      /\ ChatBot.conversation_history
           (fst (handle cfg ch now api bot message_data))
         = ChatBot.conversation_history bot).
Proof.
  intros handle posts. subst posts.
  pose proof (handle_message_posts lower strip lenient_b64 replace_invalid
                cfg ch now api bot message_data) as Hposts.
  fold handle in Hposts.
  split; [|split; [|split; [|split]]].
  - destruct Hposts as [->|(r & s & b & reply & _ & _ & _ & _ & ->)];
      simpl; lia.
  - intros p Hp.
    destruct Hposts
      as [Hnone|(r & s & b & reply & -> & Hs & Hr & Hkey & Hsome)];
      [rewrite Hnone in Hp; contradiction|].
    rewrite Hsome in Hp. destruct Hp as [<-|[]].
    rewrite send_message_post.
    cbn [ChatBot.post_sender_handle ChatBot.post_filter_version
         ChatBot.post_x_api_secret ChatBot.post_cipher_blob
         ChatBot.post_room_id].
    split; [reflexivity|]. split; [reflexivity|]. split; [reflexivity|].
    split; [now exists reply|]. split; [now exists s, b|].
    split; [exact Hkey|].
    intros ch' now' api' bot'. subst handle. apply handle_own_message.
  - intros room_id sender message_text -> Hsender Hvalid Hkey.
    assert (Hdecode :
              ChatBot.decode_message lenient_b64 replace_invalid
                (Some (ChatBot.encode_message message_text))
              = Return message_text)
      by exact (proj2 (proj2 (proj2 (message_round_trip_facts lenient_b64
                                       replace_invalid message_text)))
                  Hvalid).
    split.
    + subst handle.
      now rewrite (handle_decoded_message lower strip lenient_b64
                     replace_invalid cfg ch now api bot room_id sender _
                     message_text ChatBot.no_history ""%string
                     Hsender Hdecode Hkey).
    + intros h r. subst handle.
      now rewrite (handle_decoded_message lower strip lenient_b64
                     replace_invalid cfg ch now api bot room_id sender _
                     message_text h r Hsender Hdecode Hkey).
  - intros sender blob ->. subst handle. apply handle_unhashable_room.
  - intros Hother. subst handle.
    destruct message_data as [room_id sender blob|room_id| |msg|];
      try (split; reflexivity).
    exfalso. now apply (Hother room_id sender blob).
Qed.

Lemma bot_answers_others_only_witness :
  let bot := {| ChatBot.conversation_history := ChatBot.no_rooms;
                ChatBot.current_room := ChatBot.RoomName "lobby" |} in
  let message_data :=
    ChatBot.NewMessage ChatBot.NoRoom (Some "alice"%string)
      (Some (ChatBot.encode_message "hi bot")) in
  let after :=
    ChatBot.handle_message (fun s => s) (fun s => s) b64_strict
      to_question_mark rule_bot quiet 7 api_ok bot message_data in
  ChatBot.conversation_history (fst after) ChatBot.NoRoom
  = Some [{| ChatBot.text := "hi bot"; ChatBot.timestamp := 7 |}]
  /\ map ChatBot.post_room_id (snd after) = [ChatBot.NoRoom]
  /\ map ChatBot.post_cipher_blob (snd after)
     = [ChatBot.encode_message "Hi there! What's on your mind?"].
Proof.
  intros bot message_data after. subst after.
  destruct (proj1 (proj2 (proj2 (bot_answers_others_only (fun s => s)
                                   (fun s => s) b64_strict to_question_mark
                                   rule_bot quiet 7 api_ok bot
                                   message_data)))
              ChatBot.NoRoom (Some "alice"%string) "hi bot"%string
              eq_refl ltac:(discriminate) eq_refl ltac:(discriminate))
    as [Hhistory Hposts].
  split; [rewrite Hhistory; reflexivity|].
  rewrite (Hposts ChatBot.no_history ""%string). split; reflexivity.
Defined.

(** ** The URL of the WebSocket *)

Lemma unquote_quote_slash_byte (c : ascii) (rest : string) :
  ChatBot.unquote_to_bytes (ChatBot.quote_slash_byte c ++ rest)
  = String c (ChatBot.unquote_to_bytes rest).
Proof. each_byte c; reflexivity. Qed.

Lemma quote_slash_byte_chars (c x : ascii) :
  In x (list_ascii_of_string (ChatBot.quote_slash_byte c)) ->
  url_value_char x = true.
Proof.
  each_byte c; simpl;
    intros H; repeat (destruct H as [<-|H]; [reflexivity|]); contradiction.
Qed.

Lemma list_ascii_app (a b : string) :
  list_ascii_of_string (a ++ b)
  = list_ascii_of_string a ++ list_ascii_of_string b.
Proof. induction a as [|c a IH]; simpl; [reflexivity | now rewrite IH]. Qed.

Lemma quote_slash_facts (bs : string) :
  ChatBot.unquote_to_bytes (ChatBot.quote_slash bs) = bs
  /\ forall x, In x (list_ascii_of_string (ChatBot.quote_slash bs)) ->
       url_value_char x = true.
Proof.
  induction bs as [|c bs [IH1 IH2]]; simpl; [split; [reflexivity|tauto]|].
  split.
  - now rewrite unquote_quote_slash_byte, IH1.
  - intros x. rewrite list_ascii_app, in_app_iff.
    intros [H|H]; [eapply quote_slash_byte_chars; eauto | auto].
Qed.

(** X14. The URL [connect_websocket] builds has the three parameters
    [user_handle], [api_secret] and [room_id], in this order, whatever the
    handle, the secret and the room contain: each value is made of letters,
    digits, [_.-~/] and percent escapes only, hence holds no [&], [=], [?],
    [#] or space of its own, and unquotes to the bytes it stands for. With
    no current room there is no URL. *)
Theorem connect_url_parameters (cfg : ChatBot.Config)
  (current_room : option string) :
  match ChatBot.connect_url cfg current_room with
  | None => current_room = None
  | Some ws_url =>
      exists room_id user secret room,
        current_room = Some room_id
        /\ ws_url
           = ("ws://" ++ ChatBot.ws_host cfg ++ ":"
                ++ str_int (ChatBot.ws_port cfg)
                ++ "?user_handle=" ++ user ++ "&api_secret=" ++ secret
                ++ "&room_id=" ++ room)%string
        /\ ChatBot.unquote_to_bytes user = ChatBot.bot_handle cfg
        /\ ChatBot.unquote_to_bytes secret = ChatBot.api_secret cfg
        /\ ChatBot.unquote_to_bytes room = room_id
        /\ forall x,
             In x (list_ascii_of_string user ++ list_ascii_of_string secret
                   ++ list_ascii_of_string room) ->
             url_value_char x = true
             /\ x <> "&"%char /\ x <> "="%char /\ x <> "?"%char
             /\ x <> "#"%char /\ x <> " "%char
  end.
Proof.
  destruct current_room as [room_id|]; simpl; [|reflexivity].
  destruct (quote_slash_facts (ChatBot.bot_handle cfg)) as [U1 U2].
  destruct (quote_slash_facts (ChatBot.api_secret cfg)) as [S1 S2].
  destruct (quote_slash_facts room_id) as [R1 R2].
  exists room_id, (ChatBot.quote_slash (ChatBot.bot_handle cfg)),
    (ChatBot.quote_slash (ChatBot.api_secret cfg)),
    (ChatBot.quote_slash room_id).
  do 5 (split; [auto|]).
  intros x Hx. rewrite !in_app_iff in Hx.
  assert (Hc : url_value_char x = true) by (destruct Hx as [?|[?|?]]; auto).
  split; [exact Hc|].
  repeat split; intros ->; discriminate Hc.
Qed.
